(** * The Hickory Kampala NLP assignment: classifier app and dataset builder

    A shallow embedding of [app.py] (text normalisation and the Streamlit
    classification handler) and of [scraper.py] (noise filter,
    de-duplication of the collected rows and the CSV write with its
    fallback), followed by the properties established about them.

    Python strings are sequences of Unicode code points; they are modelled
    as lists of integers.  Library code that lives outside the repository
    (NLTK, scikit-learn, the Unicode case tables) enters through records of
    functions. *)

From Stdlib Require Import QArith.
From stdpp Require Import base list gmap sets strings sorting pretty.

Open Scope Z_scope.

(** ** Python strings *)

Module PyStr.

Definition pystr := list Z.

(** An ASCII literal. *)
Definition py (s : string) : pystr :=
  (λ a, Z.of_N (Ascii.N_of_ascii a)) <$> String.list_ascii_of_string s.

Definition is_ascii (c : Z) : bool := (0 <=? c) && (c <? 128).

(** [str.isspace] on one code point; the regular-expression class [\s]
    of a [str] pattern is the same set. *)
Definition is_space (c : Z) : bool :=
  ((9 <=? c) && (c <=? 13)) || ((28 <=? c) && (c <=? 32))
  || (c =? 133) || (c =? 160) || (c =? 5760)
  || ((8192 <=? c) && (c <=? 8202))
  || (c =? 8232) || (c =? 8233) || (c =? 8239) || (c =? 8287)
  || (c =? 12288).

(** The class [a-z]. *)
Definition is_az (c : Z) : bool := (97 <=? c) && (c <=? 122).

Definition is_AZ (c : Z) : bool := (65 <=? c) && (c <=? 90).

Definition SPACE : Z := 32.

Definition ascii_lower (c : Z) : Z := if is_AZ c then c + 32 else c.
Definition ascii_upper (c : Z) : Z := if is_az c then c - 32 else c.

(** What the development does not fix about Unicode: the case mappings
    of text that is not pure ASCII, and the decimal digits beyond 0-9. *)
Record unicode_tables := {
  unicode_lower : pystr → pystr;
  unicode_upper : pystr → pystr;
  unicode_isdecimal : Z → bool;
}.

(** [s.lower()] and [s.upper()]. *)
Definition str_lower (U : unicode_tables) (s : pystr) : pystr :=
  if forallb is_ascii s then ascii_lower <$> s else unicode_lower U s.

Definition str_upper (U : unicode_tables) (s : pystr) : pystr :=
  if forallb is_ascii s then ascii_upper <$> s else unicode_upper U s.

Fixpoint drop_while (p : Z → bool) (s : pystr) : pystr :=
  match s with
  | [] => []
  | c :: r => if p c then drop_while p r else s
  end.

Definition lstrip (s : pystr) : pystr := drop_while is_space s.
Definition rstrip (s : pystr) : pystr := rev (drop_while is_space (rev s)).

(** [s.strip()] *)
Definition strip (s : pystr) : pystr := rstrip (lstrip s).

(** [sep.join(parts)] *)
Fixpoint str_join (sep : pystr) (parts : list pystr) : pystr :=
  match parts with
  | [] => []
  | [p] => p
  | p :: rest => p ++ sep ++ str_join sep rest
  end.

(** [s.split()]: the maximal runs of non-whitespace characters.  [cur]
    holds the word being read, reversed. *)
Fixpoint split_go (cur : pystr) (s : pystr) : list pystr :=
  match s with
  | [] => if cur is [] then [] else [rev cur]
  | c :: r =>
      if is_space c
      then (if cur is [] then split_go [] r else rev cur :: split_go [] r)
      else split_go (c :: cur) r
  end.

Definition str_split (s : pystr) : list pystr := split_go [] s.

Fixpoint starts_with (p s : pystr) : bool :=
  match p, s with
  | [], _ => true
  | _ :: _, [] => false
  | a :: p', b :: s' => (a =? b) && starts_with p' s'
  end.

(** [sub in s] *)
Fixpoint str_contains (sub s : pystr) : bool :=
  starts_with sub s ||
  match s with
  | [] => false
  | _ :: r => str_contains sub r
  end.

(** Truthiness of a string: non-empty. *)
Definition truthy (s : pystr) : bool := if s is [] then false else true.

End PyStr.
Export PyStr.

(** ** Exceptions and a state-and-error monad for the effectful code *)

Module Py.

Inductive py_exn :=
| PermissionError
| OSError (errno : Z)
| IndexError
| ValueError
| StreamlitAPIException
| RerunException.

#[export] Instance py_exn_eq_dec : EqDecision py_exn.
Proof. solve_decision. Defined.

(** A computation over a state [S] that returns a value or raises. *)
Definition M (S A : Type) : Type := S → S * (py_exn + A).

Definition ret {S A} (a : A) : M S A := λ s, (s, inr a).

Definition bind {S A B} (m : M S A) (k : A → M S B) : M S B :=
  λ s, match m s with
       | (s', inr a) => k a s'
       | (s', inl e) => (s', inl e)
       end.

Definition raise {S A} (e : py_exn) : M S A := λ s, (s, inl e).

Definition get {S} : M S S := λ s, (s, inr s).

Definition modify {S} (f : S → S) : M S () := λ s, (f s, inr ()).

(** [try: body  except e: handler]: only the named exception is caught. *)
Definition try_except {S A} (body : M S A) (e : py_exn) (handler : M S A)
  : M S A :=
  λ s, match body s with
       | (s', inl e') => if decide (e' = e) then handler s' else (s', inl e')
       | r => r
       end.

#[export] Instance M_ret {S} : MRet (M S) := λ _ a, ret a.
#[export] Instance M_bind {S} : MBind (M S) := λ _ _ k m, bind m k.

(** [for x in xs: body x] *)
Fixpoint for_each {S A} (xs : list A) (body : A → M S ()) : M S () :=
  match xs with
  | [] => ret ()
  | x :: r => bind (body x) (λ _, for_each r body)
  end.

(** [xs[0]] *)
Definition index0 {S A} (xs : list A) : M S A :=
  match xs with
  | [] => raise IndexError
  | x :: _ => ret x
  end.

End Py.
Export Py.

(** ** app.py *)

Module App.

Inductive wordnet_pos := pos_v | pos_n.

(** The NLTK objects the module builds at import time:
    [word_tokenize], [set(stopwords.words('english'))] and
    [WordNetLemmatizer().lemmatize]. *)
Record nltk := {
  word_tokenize : pystr → list pystr;
  stop_words : gset pystr;
  lemmatize : pystr → wordnet_pos → pystr;
}.

(** [re.sub(r'[^a-z\s]', ' ', text)] *)
Definition re_sub_non_letter (text : pystr) : pystr :=
  (λ c, if is_az c || is_space c then c else SPACE) <$> text.

(** [re.sub(r'\s+', ' ', text)]: every maximal run of whitespace becomes
    one space.  [in_run] tells that the previous character was whitespace. *)
Fixpoint collapse_ws (in_run : bool) (text : pystr) : pystr :=
  match text with
  | [] => []
  | c :: r =>
      if is_space c
      then (if in_run then collapse_ws true r else SPACE :: collapse_ws true r)
      else c :: collapse_ws false r
  end.

Definition re_sub_ws_runs (text : pystr) : pystr := collapse_ws false text.

Section Preprocess.
Context (U : unicode_tables) (K : nltk).

Definition preprocess (text : pystr) : pystr :=
  let text := str_lower U text in
  let text := re_sub_non_letter text in
  let text := strip (re_sub_ws_runs text) in
  let tokens := word_tokenize K text in
  let tokens :=
    filter (λ t, (t ∉ stop_words K) ∧ (2 < length t)%nat) tokens in
  let tokens := (λ t, lemmatize K t pos_v) <$> tokens in
  let tokens := (λ t, lemmatize K t pos_n) <$> tokens in
  str_join (py " ") tokens.

End Preprocess.

(** *** The normaliser as the specification words it: seven steps *)

Module Spec.
Section Steps.
Context (U : unicode_tables) (K : nltk).

(** 1. Lowercase the entire string. *)
Definition step1_lowercase (raw : pystr) : pystr := str_lower U raw.

(** 2. Replace every character that is not a lowercase ASCII letter or
    whitespace with a single space. *)
Definition step2_strip_non_letters (s : pystr) : pystr :=
  s ≫= (λ c, if negb (is_az c || is_space c) then [SPACE] else [c]).

(** 3. Collapse consecutive whitespace to one space; trim leading and
    trailing whitespace. *)
Definition squeeze (c : Z) (acc : pystr) : pystr :=
  if is_space c
  then match acc with
       | d :: _ => if d =? SPACE then acc else SPACE :: acc
       | [] => [SPACE]
       end
  else c :: acc.

Definition step3_collapse_trim (s : pystr) : pystr :=
  strip (foldr squeeze [] s).

(** 4. Split into word tokens. *)
Definition step4_tokenize (s : pystr) : list pystr := word_tokenize K s.

(** 5. Remove tokens that are in the stopword set or have length <= 2. *)
Definition step5_drop (ts : list pystr) : list pystr :=
  filter (λ t, ¬ (t ∈ stop_words K ∨ (length t ≤ 2)%nat)) ts.

(** 6. Lemmatise each token as a verb, then the result as a noun. *)
Definition lemmatize_twice (t : pystr) : pystr :=
  lemmatize K (lemmatize K t pos_v) pos_n.

Definition step6_lemmatize (ts : list pystr) : list pystr :=
  lemmatize_twice <$> ts.

(** 7. Re-join the surviving tokens with single spaces. *)
Definition step7_join (ts : list pystr) : pystr := str_join [SPACE] ts.

(** A token of NormalizedText: lowercase alphabetic, longer than two
    characters, not a stopword. *)
Definition normalized_token (t : pystr) : Prop :=
  forallb is_az t = true ∧ (2 < length t)%nat ∧ t ∉ stop_words K.

Definition normalize (raw : pystr) : pystr :=
  step7_join (step6_lemmatize (step5_drop (step4_tokenize
    (step3_collapse_trim (step2_strip_non_letters (step1_lowercase raw)))))).

End Steps.
End Spec.

(** *** Category descriptions *)

Definition CATEGORY_INFO : gmap pystr pystr :=
  list_to_map [
    (py "food", py "Food Menu - This text describes a food or meal item");
    (py "drinks", py "Drinks Menu - This text describes a beverage or cocktail");
    (py "wines", py "Wine List - This text describes a wine selection");
    (py "cake", py "Cake Menu - This text describes a cake or bakery item");
    (py "reviews", py "Customer Review - This text sounds like a customer review");
    (py "services", py "Services - This text describes a restaurant service");
    (py "about", py "About / Description - This text describes the restaurant");
    (py "home", py "General Info - General restaurant information");
    (py "contact", py "Contact / Location - Location or contact information");
    (py "events", py "Events - Event-related information")
  ].

(** [d.get(k, default)] *)
Definition dict_get (d : gmap pystr pystr) (k dflt : pystr) : pystr :=
  default dflt (d !! k).

(** *** The fitted artefacts and the Streamlit calls *)

(** A feature matrix or a probability matrix: rows of finite floats, each
    taken as the rational it denotes. *)
Definition matrix := list (list Q).

(** [tfidf] and [model] as loaded from the joblib files.  A model without a
    [predict_proba] attribute has [None] there. *)
Record artefacts := {
  tfidf_transform : list pystr → matrix;
  model_predict : matrix → list pystr;
  model_predict_proba : option (matrix → matrix);
  model_classes_ : list pystr;
}.

(** What the script does to the outside: calls into the artefacts and
    Streamlit display calls. *)
Inductive event :=
| TfidfTransform (docs : list pystr)
| ModelPredict (X : matrix)
| ModelPredictProba (X : matrix)
| StSuccess (body : pystr)
| StMarkdown (body : pystr)
| StProgress (value : Q) (text : pystr)
| StWarning (body : pystr).

(** The session state of the page ([st.session_state.input_text]) and the
    calls made so far, oldest first. *)
Record app_state := {
  input_text : pystr;
  trace : list event;
}.

Definition emit (e : event) : M app_state () :=
  modify (λ s, {| input_text := input_text s; trace := trace s ++ [e] |}).

Definition set_input_text (t : pystr) : M app_state () :=
  modify (λ s, {| input_text := t; trace := trace s |}).

(** Float comparison [x < y]. *)
Definition float_lt (x y : Q) : bool := negb (Qle_bool y x).

(** [max(xs)]: the first of the largest items; [ValueError] on an empty
    sequence. *)
Definition py_max {S} (xs : list Q) : M S Q :=
  match xs with
  | [] => raise ValueError
  | x :: r => ret (foldl (λ m item, if float_lt m item then item else m) x r)
  end.

(** A stable ascending sort on the key: each item goes after the items
    that are not larger. *)
Fixpoint insert_by {A} (key : A → Q) (x : A) (l : list A) : list A :=
  match l with
  | [] => [x]
  | y :: l' =>
      if float_lt (key x) (key y) then x :: l else y :: insert_by key x l'
  end.

Definition stable_sort {A} (key : A → Q) (l : list A) : list A :=
  foldl (λ acc x, insert_by key x acc) [] l.

(** [sorted(l, key=key, reverse=True)]: the list is reversed, sorted
    stably in ascending order and reversed again. *)
Definition sorted_reverse {A} (key : A → Q) (l : list A) : list A :=
  rev (stable_sort key (rev l)).

(** [st.progress(value, text=text)] rejects a value outside [0, 1]. *)
Definition st_progress (value : Q) (text : pystr) : M app_state () :=
  if Qle_bool 0 value && Qle_bool value 1
  then emit (StProgress value text)
  else raise StreamlitAPIException.

Section Script.
Context (U : unicode_tables) (K : nltk) (A : artefacts).
(** The format specification [.1%] applied to a float. *)
Context (format_percent : Q → pystr).

Definition classify_text (text : pystr) : M app_state () :=
  let processed := preprocess U K text in
  emit (TfidfTransform [processed]);;
  let vec := tfidf_transform A [processed] in
  emit (ModelPredict vec);;
  prediction ← index0 (model_predict A vec);
  match model_predict_proba A with
  | Some predict_proba =>
      emit (ModelPredictProba vec);;
      proba ← index0 (predict_proba vec);
      let classes := model_classes_ A in
      confidence ← py_max proba;
      emit (StSuccess (py "**Predicted Category: " ++ str_upper U prediction
                       ++ py "**"));;
      emit (StMarkdown (dict_get CATEGORY_INFO prediction prediction));;
      emit (StMarkdown (py "**Confidence:** " ++ format_percent confidence));;
      emit (StMarkdown (py "#### All Category Probabilities:"));;
      for_each (sorted_reverse snd (zip classes proba))
        (λ '(cls, prob),
           st_progress prob (cls ++ py ": " ++ format_percent prob))
  | None =>
      emit (StSuccess (py "**Predicted Category: " ++ str_upper U prediction
                       ++ py "**"));;
      emit (StMarkdown (dict_get CATEGORY_INFO prediction prediction))
  end.

(** The body of [if st.button("Classify", type="primary"):], run when the
    button was pressed with [user_input] in the text area. *)
Definition on_classify_click (user_input : pystr) : M app_state () :=
  if truthy (strip user_input)
  then classify_text user_input
  else emit (StWarning (py "Please enter some text to classify.")).

Definition examples : list pystr := [
  py "Grilled beef fillet with mushroom sauce and mashed potatoes";
  py "Vodka based cocktail with fresh lime and mint leaves";
  py "South African Cabernet Sauvignon with dark fruit and oak notes";
  py "The restaurant has excellent ambiance and friendly staff";
  py "Red velvet cake with cream cheese frosting"
].

(** The body of [if st.button(f"Example {i+1}", ...):] for example [ex]. *)
Definition on_example_click (ex : pystr) : M app_state () :=
  set_input_text ex;; raise RerunException.

End Script.

End App.

(** ** scraper.py *)

Module Scraper.

(** *** The noise patterns

    The patterns of [NOISE_PATTERNS] use literal characters, one group of
    alternative words, [\d+], and the anchors [^] and [$]; they are
    compiled with [re.IGNORECASE]. *)

Inductive atom :=
| Lit (c : Z)
| Alt (alts : list pystr)
| Digits.

Record regex := {
  bol : bool;
  body : list atom;
  eol : bool;
}.

Definition lits (s : string) : list atom := Lit <$> py s.

(** [^s], [^s$] and [s] for a literal [s]. *)
Definition re_prefix (s : string) : regex :=
  {| bol := true; body := lits s; eol := false |}.
Definition re_exact (s : string) : regex :=
  {| bol := true; body := lits s; eol := true |}.
Definition re_anywhere (s : string) : regex :=
  {| bol := false; body := lits s; eol := false |}.

Definition NOISE_PATTERNS : list regex := [
  re_prefix "lorem ipsum";
  re_prefix "food drinks wines";
  re_prefix "drinks wines";
  re_prefix "wines all drinks";
  re_prefix "cake events";
  re_prefix "food / food";
  re_prefix "drinks / drinks";
  re_prefix "wines / wines";
  re_prefix "cake / cake";
  re_prefix "contact us sed";
  {| bol := true;
     body := lits "/ " ++ [Alt [py "food"; py "drinks"; py "wines";
                                py "cake"; py "events"]];
     eol := false |};
  re_exact "follow us";
  re_exact "view menu";
  re_exact "see more";
  re_exact "all drinks";
  re_exact "events";
  re_exact "gallery";
  re_exact "contact us";
  re_exact "food menu";
  re_exact "drinks menu";
  re_exact "cake menu";
  re_exact "exquisite recipes";
  re_exact "specials";
  re_exact "cocktail";
  re_exact "o'clock";
  re_exact "search";
  re_exact "menu";
  re_exact "home";
  re_exact "food";
  re_exact "drinks";
  re_exact "wines";
  re_exact "cake";
  re_prefix "designed by";
  re_prefix "copyright";
  {| bol := false; body := [Lit 169]; eol := false |};
  re_anywhere "designed by fortitude";
  re_prefix "sed tincidunt";
  re_prefix "get in touch";
  re_prefix "opening hours";
  re_exact "reservation";
  re_prefix "book a table";
  re_prefix "make a reservation";
  {| bol := true; body := [Digits]; eol := true |}
].

(** A pattern character [p] against a text character [c] under
    [re.IGNORECASE]: the two ASCII cases of a letter, and the four
    non-ASCII letters that fold to [i], [s] and [k]. *)
Definition lit_matches (p c : Z) : bool :=
  let q := ascii_lower p in
  (ascii_lower c =? q)
  || ((q =? 105) && ((c =? 304) || (c =? 305)))
  || ((q =? 115) && (c =? 383))
  || ((q =? 107) && (c =? 8490)).

Fixpoint word_matches (w s : pystr) : option pystr :=
  match w, s with
  | [], _ => Some s
  | _ :: _, [] => None
  | p :: w', c :: s' => if lit_matches p c then word_matches w' s' else None
  end.

Fixpoint suffixes (s : pystr) : list pystr :=
  s :: match s with
       | [] => []
       | _ :: r => suffixes r
       end.

Section Matching.
Context (U : unicode_tables).

(** The class [\d]. *)
Definition is_digit (c : Z) : bool :=
  if is_ascii c then (48 <=? c) && (c <=? 57) else unicode_isdecimal U c.

(** What is left of [s] after one or more digits, longest run first. *)
Fixpoint after_digits (s : pystr) : list pystr :=
  match s with
  | [] => []
  | c :: r => if is_digit c then after_digits r ++ [r] else []
  end.

(** The remainders of [s] after a match of one atom at its start. *)
Definition match_atom (a : atom) (s : pystr) : list pystr :=
  match a with
  | Lit p =>
      match s with
      | c :: r => if lit_matches p c then [r] else []
      | [] => []
      end
  | Alt alts => omap (λ w, word_matches w s) alts
  | Digits => after_digits s
  end.

Fixpoint match_atoms (atoms : list atom) (s : pystr) : list pystr :=
  match atoms with
  | [] => [s]
  | a :: rest => match_atom a s ≫= match_atoms rest
  end.

(** [$] holds at the end of the text and before a final newline. *)
Definition at_eol (s : pystr) : bool :=
  match s with
  | [] => true
  | [c] => c =? 10
  | _ => false
  end.

(** [r.search(t)] finds a match. *)
Definition re_search (r : regex) (t : pystr) : bool :=
  existsb
    (λ start, existsb (λ rest, if eol r then at_eol rest else true)
                      (match_atoms (body r) start))
    (if bol r then [t] else suffixes t).

Definition is_noise (text : pystr) : bool :=
  let t := strip text in
  if (length t <? 15)%nat then true
  else if existsb (λ r, re_search r t) NOISE_PATTERNS then true
  else if str_contains (py "Food Drinks Wines All Drinks Cake Events") t
  then true
  else false.

End Matching.

(** *** Rows and the removal of duplicates *)

Record row := {
  source_page : pystr;
  category : pystr;
  item_name : pystr;
  description : pystr;
  price : pystr;
}.

Section Dedup.
Context (U : unicode_tables).

(** [row["description"].strip().lower()] *)
Definition desc_key (r : row) : pystr := str_lower U (strip (description r)).

(** One iteration of the loop over [all_data], on [(seen, unique_data)]. *)
Definition dedup_step (st : gset pystr * list row) (r : row)
  : gset pystr * list row :=
  let desc := desc_key r in
  if bool_decide (desc ∉ st.1) && (5 <? length desc)%nat
  then ({[desc]} ∪ st.1, st.2 ++ [r])
  else st.

Definition dedup_loop (all_data : list row) : gset pystr * list row :=
  foldl dedup_step (∅, []) all_data.

Definition unique_data (all_data : list row) : list row :=
  (dedup_loop all_data).2.

(** Two descriptions that differ only by letter case and whitespace: they
    agree once the whitespace is taken out and the case is folded. *)
Definition differ_only_by_case_whitespace (d1 d2 : pystr) : Prop :=
  str_lower U (filter (λ c, ¬ is_space c) d1)
  = str_lower U (filter (λ c, ¬ is_space c) d2).

(** Whether the iteration for the row at index [i] appends it. *)
Definition survives (all_data : list row) (i : nat) : bool :=
  match all_data !! i with
  | Some r =>
      let seen := (dedup_loop (take i all_data)).1 in
      bool_decide (desc_key r ∉ seen) && (5 <? length (desc_key r))%nat
  | None => false
  end.

End Dedup.

(** *** Writing the CSV file *)

Record csv_file := {
  header : list pystr;
  records : list row;
}.

Inductive io_event :=
| OpenForWriting (filename : pystr)
| PrintLine (line : pystr).

(** The files on disk, the paths that cannot be opened for writing with
    the exception each raises, and what the run has done so far. *)
Record world := {
  files : gmap pystr csv_file;
  unwritable : gmap pystr py_exn;
  io_log : list io_event;
}.

Definition log (e : io_event) : M world () :=
  modify (λ w, {| files := files w; unwritable := unwritable w;
                  io_log := io_log w ++ [e] |}).

Definition open_w (filename : pystr) : M world () :=
  log (OpenForWriting filename);;
  w ← get;
  match unwritable w !! filename with
  | Some e => raise e
  | None => ret ()
  end.

Definition write_file (filename : pystr) (f : csv_file) : M world () :=
  modify (λ w, {| files := <[filename := f]> (files w);
                  unwritable := unwritable w; io_log := io_log w |}).

(** [str(n)] *)
Definition str_of_nat (n : nat) : pystr := py (pretty n).

Definition save_to_csv (rows : list row) (filename : pystr) : M world () :=
  let fieldnames := [py "source_page"; py "category"; py "item_name";
                     py "description"; py "price"] in
  open_w filename;;
  write_file filename {| header := fieldnames; records := rows |};;
  log (PrintLine (py "Saved " ++ str_of_nat (length rows) ++ py " records to "
              ++ filename)).

Section Main.
Context (U : unicode_tables).

(** The main block from the de-duplication on, given what
    [build_comprehensive_dataset()] returned. *)
Definition main (all_data : list row) : M world () :=
  let unique_data := unique_data U all_data in
  try_except (save_to_csv unique_data (py "Omoding.csv")) PermissionError
    (log (PrintLine (py "Omoding.csv is locked (close it in Excel/other apps). Writing to Omoding_new.csv instead."));;
     save_to_csv unique_data (py "Omoding_new.csv"));;
  log (PrintLine (10 :: py "Total unique records: "
              ++ str_of_nat (length unique_data))).

End Main.

End Scraper.

(** ** Stand-ins for the external libraries on small inputs

    The statements below hold for all tables, tokenisers, stopword sets and
    lemmatisers.  Where a concrete run is evaluated, these fragments are
    used; on the inputs evaluated they agree with Python's [str.lower] and
    with NLTK. *)

Module Sample.

(** Case tables for ASCII text: text outside ASCII is left as it is. *)
Definition ascii_tables : unicode_tables :=
  {| unicode_lower := λ s, s;
     unicode_upper := λ s, s;
     unicode_isdecimal := λ _, false |}.

(** Some of NLTK's English stopwords. *)
Definition some_stopwords : gset pystr :=
  list_to_set (py <$> ["the"; "were"; "was"; "and"; "with"; "for"; "has";
                       "can"; "not"; "are"; "this"; "that"]%string).

(** WordNet exceptions and suffix rules on a few words. *)
Definition verb_lemmas : gmap pystr pystr :=
  list_to_map [(py "went", py "go"); (py "cooking", py "cook");
               (py "grilled", py "grill"); (py "served", py "serve")].

Definition noun_lemmas : gmap pystr pystr :=
  list_to_map [(py "chefs", py "chef"); (py "meals", py "meal");
               (py "potatoes", py "potato")].

Definition lemmatize_fragment (t : pystr) (pos : App.wordnet_pos) : pystr :=
  match pos with
  | App.pos_v => default t (verb_lemmas !! t)
  | App.pos_n => default t (noun_lemmas !! t)
  end.

(** On text made of lowercase letters and single spaces that holds none of
    the Treebank contractions, [word_tokenize] splits at the spaces. *)
Definition nltk_fragment : App.nltk :=
  {| App.word_tokenize := str_split;
     App.stop_words := some_stopwords;
     App.lemmatize := lemmatize_fragment |}.

(** A fitted model over three classes that reports the same probabilities
    for every document, and one that reports none. *)
Definition toy_model : App.artefacts :=
  {| App.tfidf_transform := λ docs, (λ d, [inject_Z (Z.of_nat (length d))]) <$> docs;
     App.model_predict := λ X, (λ _, py "food") <$> X;
     App.model_predict_proba :=
       Some (λ X, (λ _, [1 # 4; 1 # 2; 1 # 4]%Q) <$> X);
     App.model_classes_ := [py "cake"; py "food"; py "wines"] |}.

Definition toy_model_without_proba : App.artefacts :=
  {| App.tfidf_transform := App.tfidf_transform toy_model;
     App.model_predict := App.model_predict toy_model;
     App.model_predict_proba := None;
     App.model_classes_ := App.model_classes_ toy_model |}.

(** A percentage with one decimal, rounded half up. *)
Definition percent (q : Q) : pystr :=
  let n := (Qnum q * 2000 + Z.pos (Qden q)) / (2 * Z.pos (Qden q)) in
  py (pretty (n / 10)) ++ py "." ++ py (pretty (n mod 10)) ++ py "%".

Definition fresh_page : App.app_state :=
  {| App.input_text := []; App.trace := [] |}.

(** A scraped row of the food page with the given description. *)
Definition row_of (d : pystr) : Scraper.row :=
  {| Scraper.source_page := py "food"; Scraper.category := py "Food";
     Scraper.item_name := []; Scraper.description := d;
     Scraper.price := [] |}.

End Sample.

(** ** scraper.py: cleaning, page scraping and the crawl *)

Module Crawl.

(** [text.replace(old, new)] for single characters. *)
Definition replace_char (old new : Z) (text : pystr) : pystr :=
  (λ c, if c =? old then new else c) <$> text.

Definition clean_text (text : pystr) : pystr :=
  if negb (truthy text) then []
  else
    let text := replace_char 8216 39 (replace_char 8217 39 text) in
    let text := replace_char 8221 34 (replace_char 8220 34 text) in
    let text := replace_char 8212 45 (replace_char 8211 45 text) in
    let text := App.re_sub_ws_runs text in
    let text := strip text in
    text.

(** *** The parsed page

    What the scraping functions ask of BeautifulSoup: the text of an
    element, the names of the elements that enclose it, its [class]
    attribute (a list of class names, empty when absent), and the elements
    of the page with one of the given names, in document order. *)

Record tag := {
  get_text : pystr;
  parents : list pystr;
  class_attr : list pystr;
}.

Record soup := {
  find_all : list pystr → list tag;
}.

(** [elem.find_parent(names)] finds an enclosing element. *)
Definition find_parent (elem : tag) (names : list pystr) : bool :=
  existsb (λ name, bool_decide (name ∈ names)) (parents elem).

Definition row_with (source_page category description : pystr)
  : Scraper.row :=
  {| Scraper.source_page := source_page; Scraper.category := category;
     Scraper.item_name := []; Scraper.description := description;
     Scraper.price := [] |}.

Section Scraping.
Context (U : unicode_tables).
(** [s.capitalize()] on text that is not pure ASCII. *)
Context (unicode_capitalize : pystr → pystr).

(** [s.capitalize()] *)
Definition str_capitalize (s : pystr) : pystr :=
  if forallb is_ascii s
  then match s with
       | [] => []
       | c :: r => ascii_upper c :: (ascii_lower <$> r)
       end
  else unicode_capitalize s.

Definition scrape_home (page : option soup) : list Scraper.row :=
  match page with
  | None => []
  | Some page =>
      foldl (λ rows elem,
               let text := clean_text (get_text elem) in
               if truthy text && negb (Scraper.is_noise U text)
               then rows ++ [row_with (py "home") (py "description") text]
               else rows)
            [] (find_all page [py "p"; py "blockquote"])
  end.

Definition scrape_menu_page (page : option soup) (page_name : pystr)
  : list Scraper.row :=
  match page with
  | None => []
  | Some page =>
      foldl (λ rows elem,
               if find_parent elem [py "nav"; py "footer"; py "header"]
               then rows
               else
                 let parent_classes := str_join (py " ") (class_attr elem) in
                 if existsb (λ skip,
                               str_contains skip (str_lower U parent_classes))
                      [py "nav"; py "footer"; py "menu-item"; py "widget"]
                 then rows
                 else
                   let text := clean_text (get_text elem) in
                   if truthy text && negb (Scraper.is_noise U text)
                   then rows ++ [row_with page_name (str_capitalize page_name)
                                   text]
                   else rows)
            [] (find_all page [py "p"; py "li"])
  end.

Definition scrape_contact (page : option soup) : list Scraper.row :=
  match page with
  | None => []
  | Some page =>
      foldl (λ rows elem,
               if find_parent elem [py "nav"; py "footer"; py "header"]
               then rows
               else
                 let text := clean_text (get_text elem) in
                 if truthy text && negb (Scraper.is_noise U text)
                 then rows ++ [row_with (py "contact") (py "location_info")
                                 text]
                 else rows)
            [] (find_all page [py "p"; py "address"])
  end.

(** *** The crawl *)

Definition BASE_URL : pystr := py "https://thehickorykampala.com".

(** [PAGES.items()], in the order of the dictionary display. *)
Definition PAGES : list (pystr * pystr) := [
  (py "home", py "/");
  (py "food", py "/food/");
  (py "drinks", py "/drinks/");
  (py "wines", py "/wines/");
  (py "cake", py "/cake/");
  (py "events", py "/category/events/");
  (py "contact", py "/contact-us/")
].

Inductive crawl_event :=
| HttpGet (url : pystr)
| Sleep (seconds : Z)
| Stdout (line : pystr).

(** The rows collected so far and what the crawl has done. *)
Record crawl_state := {
  rows : list Scraper.row;
  crawl_log : list crawl_event;
}.

Definition note (e : crawl_event) : M crawl_state () :=
  modify (λ s, {| rows := rows s; crawl_log := crawl_log s ++ [e] |}).

(** [rows.extend(more)] *)
Definition rows_extend (more : list Scraper.row) : M crawl_state () :=
  modify (λ s, {| rows := rows s ++ more; crawl_log := crawl_log s |}).

(** The web site as the crawl sees it: for a URL, the parsed page, or the
    text of the [requests.RequestException] that the request raises. *)
Context (respond : pystr → pystr + soup).

Definition fetch_page (url : pystr) : M crawl_state (option soup) :=
  note (HttpGet url);;
  match respond url with
  | inr page => ret (Some page)
  | inl e =>
      note (Stdout (py "Error fetching " ++ url ++ py ": " ++ e));;
      ret None
  end.

(** The first part of [build_comprehensive_dataset]: the loop over the
    pages, up to the count of scraped entries. *)
Definition scrape_site : M crawl_state () :=
  modify (λ s, {| rows := []; crawl_log := crawl_log s |});;
  note (Stdout (py "Scraping The Hickory Kampala website..."));;
  for_each PAGES
    (λ '(page_name, path),
       let url := BASE_URL ++ path in
       note (Stdout (py "  Fetching: " ++ url));;
       page ← fetch_page url;
       note (Sleep 1);;
       if bool_decide (page_name = py "home")
       then rows_extend (scrape_home page)
       else if bool_decide (page_name = py "contact")
       then rows_extend (scrape_contact page)
       else rows_extend (scrape_menu_page page page_name));;
  s ← get;
  note (Stdout (py "  Scraped " ++ Scraper.str_of_nat (length (rows s))
                ++ py " raw entries from website.")).

End Scraping.

(** *** The main block *)

Section MainBlock.
Context (U : unicode_tables).

(** [s * n] *)
Definition str_repeat (s : pystr) (n : nat) : pystr :=
  mjoin (replicate n s).

(** The block under [if __name__ == "__main__":], with [all_data] standing
    for the list that [build_comprehensive_dataset()] returns. *)
Definition main_block (all_data : list Scraper.row) : M Scraper.world () :=
  Scraper.log (Scraper.PrintLine (str_repeat (py "=") 60));;
  Scraper.log (Scraper.PrintLine
                 (py "The Hickory Kampala - Web Scraping Script"));;
  Scraper.log (Scraper.PrintLine (py "Author: Omoding Isaac (B31331)"));;
  Scraper.log (Scraper.PrintLine (str_repeat (py "=") 60));;
  let unique_data := Scraper.unique_data U all_data in
  try_except (Scraper.save_to_csv unique_data (py "Omoding.csv"))
    PermissionError
    (Scraper.log (Scraper.PrintLine (py "Omoding.csv is locked (close it in Excel/other apps). Writing to Omoding_new.csv instead."));;
     Scraper.save_to_csv unique_data (py "Omoding_new.csv"));;
  Scraper.log (Scraper.PrintLine
                 (10 :: py "Total unique records: "
                  ++ Scraper.str_of_nat (length unique_data)));;
  Scraper.log (Scraper.PrintLine (py "Web scraping complete!")).

End MainBlock.

End Crawl.

(** A small web site for concrete runs. *)
Module SampleSite.

Definition home_page : Crawl.soup :=
  {| Crawl.find_all := λ names,
       if bool_decide (py "p" ∈ names)
       then [ {| Crawl.get_text := py "  Welcome  to The Hickory,  the woody wine and dine  ";
                 Crawl.parents := [py "div"; py "body"];
                 Crawl.class_attr := [] |};
              {| Crawl.get_text := py "Follow us";
                 Crawl.parents := [py "footer"; py "body"];
                 Crawl.class_attr := [] |} ]
       else [] |}.

Definition food_page : Crawl.soup :=
  {| Crawl.find_all := λ names,
       if bool_decide (py "li" ∈ names)
       then [ {| Crawl.get_text := py "Food Drinks Wines";
                 Crawl.parents := [py "ul"; py "nav"; py "body"];
                 Crawl.class_attr := [] |};
              {| Crawl.get_text := py "Grilled salmon fillet with creamy Tuscan sauce";
                 Crawl.parents := [py "ul"; py "div"; py "body"];
                 Crawl.class_attr := [py "dish"] |};
              {| Crawl.get_text := py "A sidebar teaser about the weekly specials";
                 Crawl.parents := [py "ul"; py "div"; py "body"];
                 Crawl.class_attr := [py "Widget-Area"] |} ]
       else [] |}.

(** The home page and the food page answer; every other request fails. *)
Definition respond (url : pystr) : pystr + Crawl.soup :=
  if bool_decide (url = py "https://thehickorykampala.com/")
  then inr home_page
  else if bool_decide (url = py "https://thehickorykampala.com/food/")
  then inr food_page
  else inl (py "404 Client Error").

Definition fresh_crawl : Crawl.crawl_state :=
  {| Crawl.rows := []; Crawl.crawl_log := [] |}.

Definition empty_disk : Scraper.world :=
  {| Scraper.files := ∅; Scraper.unwritable := ∅; Scraper.io_log := [] |}.

End SampleSite.

(** Models that return nothing where the handler indexes. *)
Module SampleModels.

Definition silent_model : App.artefacts :=
  {| App.tfidf_transform := App.tfidf_transform Sample.toy_model;
     App.model_predict := λ _, [];
     App.model_predict_proba := App.model_predict_proba Sample.toy_model;
     App.model_classes_ := App.model_classes_ Sample.toy_model |}.

Definition no_rows_model : App.artefacts :=
  {| App.tfidf_transform := App.tfidf_transform Sample.toy_model;
     App.model_predict := App.model_predict Sample.toy_model;
     App.model_predict_proba := Some (λ _, []);
     App.model_classes_ := App.model_classes_ Sample.toy_model |}.

Definition empty_row_model : App.artefacts :=
  {| App.tfidf_transform := App.tfidf_transform Sample.toy_model;
     App.model_predict := App.model_predict Sample.toy_model;
     App.model_predict_proba := Some (λ X, (λ _, []) <$> X);
     App.model_classes_ := [] |}.

End SampleModels.

(** * Properties *)

(** ** Strings *)

Section StringFacts.
Implicit Types (s t sub : pystr) (c : Z) (p : Z → bool).

Lemma drop_while_length p s : (length (drop_while p s) ≤ length s)%nat.
Proof.
  induction s as [|c r IH]; simpl; [lia|].
  destruct (p c); simpl; lia.
Qed.

Lemma strip_length s : (length (strip s) ≤ length s)%nat.
Proof.
  unfold strip, rstrip, lstrip.
  rewrite length_rev.
  etrans; [apply drop_while_length|].
  rewrite length_rev. apply drop_while_length.
Qed.

Lemma drop_while_all p s : forallb p s = true → drop_while p s = [].
Proof.
  induction s as [|c r IH]; simpl; [done|].
  destruct (p c); simpl; [done | discriminate].
Qed.

Lemma strip_blank s : forallb is_space s = true → strip s = [].
Proof.
  intros H. unfold strip, rstrip, lstrip.
  by rewrite (drop_while_all _ _ H).
Qed.

(** Dropping a prefix stops at the latest at a character that fails the
    test. *)
Lemma drop_while_stops p a c r :
  p c = false → ∃ a', drop_while p (a ++ c :: r) = a' ++ c :: r.
Proof.
  intros Hc. induction a as [|d a IH]; simpl.
  - exists []. by rewrite Hc.
  - destruct (p d); [done|]. by exists (d :: a).
Qed.

Lemma drop_while_head p c r : p c = false → drop_while p (c :: r) = c :: r.
Proof. intros H. simpl. by rewrite H. Qed.

Lemma starts_with_spec sub s :
  starts_with sub s = true ↔ ∃ b, s = sub ++ b.
Proof.
  revert s. induction sub as [|a sub IH]; intros s; simpl.
  - split; [by exists s | done].
  - destruct s as [|c s]; simpl.
    + split; [done | intros [b Hb]; discriminate].
    + rewrite andb_true_iff, IH, Z.eqb_eq. split.
      * intros [-> [b ->]]. by exists b.
      * intros [b Hb]. injection Hb as -> ->. eauto.
Qed.

Lemma str_contains_spec sub s :
  str_contains sub s = true ↔ ∃ a b, s = a ++ sub ++ b.
Proof.
  induction s as [|c s IH]; simpl.
  - rewrite orb_false_r, starts_with_spec. split.
    + intros [b Hb]. by exists [], b.
    + intros (a & b & H). symmetry in H.
      apply app_eq_nil in H as [-> H]. exists b. simpl. done.
  - rewrite orb_true_iff, starts_with_spec, IH. split.
    + intros [[b Hb] | (a & b & ->)]; [by exists [], b | by exists (c :: a), b].
    + intros ([|d a] & b & H); simpl in H.
      * left. by exists b.
      * right. injection H as -> ->. by exists a, b.
Qed.

(** Stripping keeps every occurrence of a word that neither starts nor
    ends with whitespace. *)
Lemma strip_keeps_occurrence x mid y a b :
  is_space x = false → is_space y = false →
  ∃ a' b', strip (a ++ (x :: mid ++ [y]) ++ b) = a' ++ (x :: mid ++ [y]) ++ b'.
Proof.
  intros Hx Hy. unfold strip, rstrip, lstrip.
  simpl. destruct (drop_while_stops is_space a x ((mid ++ [y]) ++ b) Hx)
    as [a' ->].
  replace (rev (a' ++ x :: (mid ++ [y]) ++ b))
    with (rev b ++ y :: rev mid ++ x :: rev a').
  2:{ rewrite !rev_app_distr. simpl. rewrite !rev_app_distr. simpl.
      by rewrite <- !app_assoc. }
  destruct (drop_while_stops is_space (rev b) y (rev mid ++ x :: rev a') Hy)
    as [b' ->].
  exists a', (rev b').
  rewrite !rev_app_distr. simpl. rewrite !rev_app_distr. simpl.
  rewrite !rev_involutive. by rewrite <- !app_assoc.
Qed.

End StringFacts.

(** ** The noise filter *)

Section NoiseFilter.
Context (U : unicode_tables).

(** C8. A string of fewer than 15 characters is classified as noise,
    whatever it contains. *)
Theorem is_noise_short (text : pystr) :
  (length text < 15)%nat → Scraper.is_noise U text = true.
Proof.
  intros Hlen. unfold Scraper.is_noise.
  pose proof (strip_length text) as Hs.
  destruct (Nat.ltb_spec (length (strip text)) 15) as [_ | Hge]; [done | lia].
Qed.

(** C10. A string that contains the navigation bar text
    "Food Drinks Wines All Drinks Cake Events" is classified as noise,
    whatever its length and whether or not a noise pattern matches it. *)
Theorem is_noise_nav_bar (text : pystr) :
  str_contains (py "Food Drinks Wines All Drinks Cake Events") text = true →
  Scraper.is_noise U text = true.
Proof.
  intros Hin. unfold Scraper.is_noise.
  destruct (length (strip text) <? 15)%nat; [done|].
  destruct (existsb _ Scraper.NOISE_PATTERNS); [done|].
  enough (str_contains (py "Food Drinks Wines All Drinks Cake Events")
            (strip text) = true) as -> by done.
  apply str_contains_spec in Hin as (a & b & ->).
  apply str_contains_spec.
  change (py "Food Drinks Wines All Drinks Cake Events")
    with (70 :: py "ood Drinks Wines All Drinks Cake Event" ++ [115]).
  by apply strip_keeps_occurrence.
Qed.

End NoiseFilter.

Lemma is_noise_short_witness :
  (length (py "Goat Curry") < 15)%nat ∧
  Scraper.is_noise Sample.ascii_tables (py "Goat Curry") = true.
Proof.
  assert (H : (length (py "Goat Curry") < 15)%nat) by (vm_compute; lia).
  split; [exact H | exact (is_noise_short Sample.ascii_tables _ H)].
Defined.

Lemma is_noise_nav_bar_witness :
  Scraper.is_noise Sample.ascii_tables
    (py "  Menu: Food Drinks Wines All Drinks Cake Events and a long tail of page text") = true.
Proof.
  apply is_noise_nav_bar. vm_compute. reflexivity.
Defined.

Example noise_patterns_count : length Scraper.NOISE_PATTERNS = 43%nat.
Proof. reflexivity. Qed.

(** Beyond the length rule and the containment rule: an ordinary sentence
    passes the filter, and the patterns match whatever the case. *)
Example is_noise_examples :
  Scraper.is_noise Sample.ascii_tables
    (py "Grilled beef fillet with mushroom sauce") = false ∧
  Scraper.is_noise Sample.ascii_tables
    (py "LOREM ipsum dolor sit amet consectetur") = true ∧
  Scraper.is_noise Sample.ascii_tables
    (py "/ Wines of the southern hemisphere") = true ∧
  Scraper.is_noise Sample.ascii_tables
    (py "12345678901234567890") = true ∧
  Scraper.is_noise Sample.ascii_tables
    (py "The restaurant is designed by Fortitude Solutions with a contemporary woody theme interior") = true.
Proof. vm_compute. done. Qed.

(** ** Removal of duplicate rows *)

Section DedupFacts.
Context (U : unicode_tables).
Implicit Types (l : list Scraper.row) (r : Scraper.row) (k : pystr).

Local Abbreviation key := (Scraper.desc_key U).
Local Abbreviation dedup_loop := (Scraper.dedup_loop U).
Local Abbreviation unique_data := (Scraper.unique_data U).
Local Abbreviation survives := (Scraper.survives U).

(** The test of the loop body on a row, given the keys seen so far. *)
Local Abbreviation fresh seen r :=
  (bool_decide (key r ∉ seen) && Nat.ltb 5 (length (key r))).

Lemma dedup_loop_snoc l r :
  dedup_loop (l ++ [r]) =
    if fresh (dedup_loop l).1 r
    then ({[key r]} ∪ (dedup_loop l).1, (dedup_loop l).2 ++ [r])
    else dedup_loop l.
Proof. unfold Scraper.dedup_loop. by rewrite foldl_snoc. Qed.

Lemma unique_data_snoc l r :
  unique_data (l ++ [r]) =
    unique_data l ++ (if fresh (dedup_loop l).1 r then [r] else []).
Proof.
  unfold Scraper.unique_data. rewrite dedup_loop_snoc.
  destruct (fresh _ r); simpl; [done | by rewrite app_nil_r].
Qed.

(** [seen] holds the keys of the rows read so far that are longer than
    five characters. *)
Lemma seen_spec l k :
  k ∈ (dedup_loop l).1 ↔ ∃ r, r ∈ l ∧ key r = k ∧ (5 < length k)%nat.
Proof.
  induction l as [|r l IH] using rev_ind.
  - unfold Scraper.dedup_loop. simpl. split; [set_solver|].
    intros (r & Hr & _). by apply elem_of_nil in Hr.
  - rewrite dedup_loop_snoc.
    destruct (bool_decide_reflect (key r ∉ (dedup_loop l).1)) as [Hnew | Hold];
      simpl.
    + destruct (Nat.ltb_spec 5 (length (key r))) as [Hlen | Hlen]; simpl.
      * rewrite elem_of_union, elem_of_singleton, IH. split.
        -- intros [-> | (r' & Hr' & Hk & Hl)].
           ++ exists r. rewrite elem_of_app, list_elem_of_singleton. auto.
           ++ exists r'. rewrite elem_of_app. auto.
        -- intros (r' & Hr' & Hk & Hl).
           apply elem_of_app in Hr' as [Hr' | Hr'].
           ++ right. eauto.
           ++ apply list_elem_of_singleton in Hr' as ->. by left.
      * rewrite IH. split.
        -- intros (r' & Hr' & Hk & Hl). exists r'. rewrite elem_of_app. auto.
        -- intros (r' & Hr' & Hk & Hl).
           apply elem_of_app in Hr' as [Hr' | Hr']; [eauto|].
           apply list_elem_of_singleton in Hr' as ->. subst k. lia.
    + apply dec_stable in Hold. rewrite IH. split.
      * intros (r' & Hr' & Hk & Hl). exists r'. rewrite elem_of_app. auto.
      * intros (r' & Hr' & Hk & Hl).
        apply elem_of_app in Hr' as [Hr' | Hr']; [eauto|].
        apply list_elem_of_singleton in Hr' as ->. subst k.
        by apply IH.
Qed.

(** The test that lets a row through, in terms of the rows before it. *)
Lemma fresh_spec l r :
  fresh (dedup_loop l).1 r = true ↔
    (5 < length (key r))%nat ∧ ∀ r', r' ∈ l → key r' ≠ key r.
Proof.
  rewrite andb_true_iff, bool_decide_eq_true, Nat.ltb_lt.
  rewrite seen_spec. split.
  - intros [Hnew Hlen]. split; [done|]. intros r' Hr' Hk.
    apply Hnew. by exists r'.
  - intros [Hlen Hnone]. split; [|done].
    intros (r' & Hr' & Hk & _). by apply (Hnone r').
Qed.

Lemma unique_data_elem l r : r ∈ unique_data l → r ∈ l.
Proof.
  induction l as [|x l IH] using rev_ind; [done|].
  rewrite unique_data_snoc, !elem_of_app. intros [H | H]; [auto|].
  destruct (fresh _ x); [auto | by apply elem_of_nil in H].
Qed.

Lemma unique_data_long l :
  Forall (λ r, (5 < length (key r))%nat) (unique_data l).
Proof.
  induction l as [|x l IH] using rev_ind; [constructor|].
  rewrite unique_data_snoc. apply Forall_app. split; [done|].
  destruct (fresh _ x) eqn:Hf; [|constructor].
  apply fresh_spec in Hf as [Hlen _]. by repeat constructor.
Qed.

Lemma unique_data_NoDup l : NoDup (key <$> unique_data l).
Proof.
  induction l as [|x l IH] using rev_ind; [constructor|].
  rewrite unique_data_snoc, fmap_app. apply NoDup_app.
  split; [done|]. destruct (fresh _ x) eqn:Hf; simpl.
  - apply fresh_spec in Hf as [_ Hnone]. split; [|apply NoDup_singleton].
    intros k Hk Hx. apply list_elem_of_singleton in Hx as ->.
    apply list_elem_of_fmap in Hk as (r' & Hk & Hr').
    apply (Hnone r'); [by apply unique_data_elem | done].
  - split; [|constructor]. intros k _ Hx. by apply elem_of_nil in Hx.
Qed.

Lemma unique_data_sublist l : sublist (unique_data l) l.
Proof.
  induction l as [|x l IH] using rev_ind; [done|].
  rewrite unique_data_snoc. apply sublist_app; [done|].
  destruct (fresh _ x); [done | apply sublist_nil_l].
Qed.

(** A kept row is the first input row with its key. *)
Lemma unique_data_first l r :
  r ∈ unique_data l →
  ∃ l1 l2, l = l1 ++ r :: l2 ∧ ∀ r', r' ∈ l1 → key r' ≠ key r.
Proof.
  induction l as [|x l IH] using rev_ind.
  - intros H. by apply elem_of_nil in H.
  - rewrite unique_data_snoc, elem_of_app. intros [H | H].
    + destruct (IH H) as (l1 & l2 & -> & Hfirst).
      exists l1, (l2 ++ [x]). split; [|done]. by rewrite <- app_assoc.
    + destruct (fresh _ x) eqn:Hf; [|by apply elem_of_nil in H].
      apply list_elem_of_singleton in H as ->.
      apply fresh_spec in Hf as [_ Hnone]. by exists l, [].
Qed.

(** Every key longer than five characters keeps one row. *)
Lemma unique_data_covers l r :
  r ∈ l → (5 < length (key r))%nat →
  ∃ r', r' ∈ unique_data l ∧ key r' = key r.
Proof.
  revert r. induction l as [|x l IH] using rev_ind; intros r.
  - intros H. by apply elem_of_nil in H.
  - rewrite elem_of_app, list_elem_of_singleton. intros Hin Hlen.
    rewrite unique_data_snoc.
    destruct (fresh _ x) eqn:Hf.
    + destruct Hin as [Hin | ->].
      * destruct (IH r Hin Hlen) as (r' & Hr' & Hk). exists r'.
        rewrite elem_of_app. auto.
      * exists x. rewrite elem_of_app, list_elem_of_singleton. auto.
    + rewrite app_nil_r. destruct Hin as [Hin | ->]; [by apply IH|].
      apply andb_false_iff in Hf as [Hf | Hf].
      * apply bool_decide_eq_false, dec_stable, seen_spec in Hf
          as (r' & Hr' & Hk & _).
        destruct (IH r' Hr') as (r'' & Hr'' & Hk'); [by rewrite Hk|].
        exists r''. split; [done | congruence].
      * apply Nat.ltb_ge in Hf. lia.
Qed.

Lemma survives_lookup l i r :
  l !! i = Some r → survives l i = fresh (dedup_loop (take i l)).1 r.
Proof. intros H. unfold Scraper.survives. by rewrite H. Qed.

Lemma survives_app l l' i :
  (i < length l)%nat → survives (l ++ l') i = survives l i.
Proof.
  intros Hi. unfold Scraper.survives.
  rewrite lookup_app_l by done. by rewrite take_app_le by lia.
Qed.

(** The kept rows are the rows at the surviving indices, in input order. *)
Lemma unique_data_survivors l :
  unique_data l =
    omap (λ i, if survives l i then l !! i else None) (seq 0 (length l)).
Proof.
  induction l as [|x l IH] using rev_ind; [done|].
  rewrite unique_data_snoc, length_app. simpl.
  rewrite seq_app, omap_app. f_equal.
  - rewrite IH. apply list_omap_ext, Forall_Forall2_diag, Forall_forall.
    intros i Hi%elem_of_seq.
    rewrite survives_app by lia. by rewrite lookup_app_l by lia.
  - simpl. rewrite (survives_lookup _ _ x).
    2:{ rewrite lookup_app_r by lia. by rewrite Nat.sub_diag. }
    rewrite take_app_length.
    destruct (fresh _ x); [|done].
    rewrite lookup_app_r by lia. by rewrite Nat.sub_diag.
Qed.

(** C7. In the output no two rows have the same lowercased, trimmed
    description; every kept row has such a key of more than five
    characters, so a row with a key of at most five is dropped; the row kept
    for a key is the first input row with that key, and every key longer
    than five keeps a row; the kept rows are in their input order. *)
Theorem unique_data_invariant l :
  NoDup (key <$> unique_data l)
  ∧ Forall (λ r, (5 < length (key r))%nat) (unique_data l)
  ∧ (∀ r, r ∈ l → (length (key r) ≤ 5)%nat → r ∉ unique_data l)
  ∧ (∀ r, r ∈ unique_data l →
       ∃ l1 l2, l = l1 ++ r :: l2 ∧ ∀ r', r' ∈ l1 → key r' ≠ key r)
  ∧ (∀ r, r ∈ l → (5 < length (key r))%nat →
       ∃ r', r' ∈ unique_data l ∧ key r' = key r)
  ∧ sublist (unique_data l) l.
Proof.
  split; [apply unique_data_NoDup|].
  split; [apply unique_data_long|].
  split.
  { intros r _ Hshort Hin.
    pose proof (unique_data_long l) as Hall.
    rewrite Forall_forall in Hall. specialize (Hall r Hin). lia. }
  split; [apply unique_data_first|].
  split; [apply unique_data_covers | apply unique_data_sublist].
Qed.

(** C6, as the code has it.  Of two input rows with the same lowercased,
    trimmed description the later one never survives; the earlier one
    survives exactly when that key is longer than five characters and no
    row before it has the same key. *)
Theorem same_key_pair_survivor l i j r1 r2 :
  (i < j)%nat → l !! i = Some r1 → l !! j = Some r2 → key r1 = key r2 →
  survives l j = false
  ∧ (survives l i = true ↔
       (5 < length (key r1))%nat
       ∧ ∀ n r', (n < i)%nat → l !! n = Some r' → key r' ≠ key r1).
Proof.
  intros Hij H1 H2 Hk. split.
  - rewrite (survives_lookup _ _ _ H2).
    apply not_true_iff_false. intros [Hlen Hnone]%fresh_spec.
    apply (Hnone r1); [|done].
    apply elem_of_take. eauto.
  - rewrite (survives_lookup _ _ _ H1), fresh_spec.
    split; intros [Hlen Hnone]; (split; [done|]).
    + intros n r' Hni Hr'. apply Hnone, elem_of_take. eauto.
    + intros r' (n & Hr' & Hni)%elem_of_take. eauto.
Qed.

End DedupFacts.

Lemma unique_data_invariant_witness :
  let l := [Sample.row_of (py "Pumpkin Soup"); Sample.row_of (py "Menu");
            Sample.row_of (py " pumpkin soup"); Sample.row_of (py "Goat Curry")] in
  NoDup (Scraper.desc_key Sample.ascii_tables
           <$> Scraper.unique_data Sample.ascii_tables l)
  ∧ sublist (Scraper.unique_data Sample.ascii_tables l) l
  ∧ Scraper.unique_data Sample.ascii_tables l
    = [Sample.row_of (py "Pumpkin Soup"); Sample.row_of (py "Goat Curry")].
Proof.
  intros l.
  destruct (unique_data_invariant Sample.ascii_tables l)
    as (Hnodup & _ & _ & _ & _ & Hsub).
  split; [exact Hnodup|]. split; [exact Hsub|].
  vm_compute. reflexivity.
Defined.

Lemma same_key_pair_survivor_witness :
  let l := [Sample.row_of (py "Grilled salmon fillet with rice");
            Sample.row_of (py "  grilled SALMON fillet with rice ")] in
  Scraper.survives Sample.ascii_tables l 1 = false
  ∧ (Scraper.survives Sample.ascii_tables l 0 = true ↔
       (5 < length (Scraper.desc_key Sample.ascii_tables
                      (Sample.row_of (py "Grilled salmon fillet with rice"))))%nat
       ∧ ∀ n r', (n < 0)%nat → l !! n = Some r' →
           Scraper.desc_key Sample.ascii_tables r'
           ≠ Scraper.desc_key Sample.ascii_tables
               (Sample.row_of (py "Grilled salmon fillet with rice"))).
Proof.
  intros l.
  apply (same_key_pair_survivor Sample.ascii_tables l 0 1
           (Sample.row_of (py "Grilled salmon fillet with rice"))
           (Sample.row_of (py "  grilled SALMON fillet with rice "))).
  - lia.
  - reflexivity.
  - reflexivity.
  - vm_compute. reflexivity.
Defined.

(** C6 as the specification states it fails: two rows whose descriptions
    differ only by case and whitespace, and neither survives, because the
    shared key has no more than five characters. *)
Lemma case_whitespace_pair_counterexample :
  ¬ (∀ (l : list Scraper.row) (i j : nat) (r1 r2 : Scraper.row),
       i ≠ j → l !! i = Some r1 → l !! j = Some r2 →
       Scraper.differ_only_by_case_whitespace Sample.ascii_tables
         (Scraper.description r1) (Scraper.description r2) →
       xorb (Scraper.survives Sample.ascii_tables l i)
            (Scraper.survives Sample.ascii_tables l j) = true).
Proof.
  intros H.
  specialize (H [Sample.row_of (py "Menu"); Sample.row_of (py " menu ")] 0%nat 1%nat
                (Sample.row_of (py "Menu")) (Sample.row_of (py " menu "))).
  assert (Hx : xorb (Scraper.survives Sample.ascii_tables
                       [Sample.row_of (py "Menu"); Sample.row_of (py " menu ")] 0)
                    (Scraper.survives Sample.ascii_tables
                       [Sample.row_of (py "Menu"); Sample.row_of (py " menu ")] 1) = false)
    by (vm_compute; reflexivity).
  rewrite H in Hx; [discriminate | lia | reflexivity | reflexivity |].
  vm_compute. reflexivity.
Qed.

(** Two more ways the pair can fare: whitespace inside the descriptions is
    not folded, so both rows survive; and a third, earlier row with the
    same key takes the place of both. *)
Example case_whitespace_pair_other_outcomes :
  (let l := [Sample.row_of (py "Grilled  beef fillet"); Sample.row_of (py "grilled beef fillet")] in
   Scraper.differ_only_by_case_whitespace Sample.ascii_tables
     (py "Grilled  beef fillet") (py "grilled beef fillet")
   ∧ Scraper.survives Sample.ascii_tables l 0 = true
   ∧ Scraper.survives Sample.ascii_tables l 1 = true)
  ∧ (let l := [Sample.row_of (py "Pumpkin Soup"); Sample.row_of (py "pumpkin soup ");
               Sample.row_of (py " PUMPKIN SOUP")] in
     Scraper.survives Sample.ascii_tables l 0 = true
     ∧ Scraper.survives Sample.ascii_tables l 1 = false
     ∧ Scraper.survives Sample.ascii_tables l 2 = false
     ∧ Scraper.unique_data Sample.ascii_tables l = [Sample.row_of (py "Pumpkin Soup")]).
Proof. vm_compute. done. Qed.

(** ** Writing the CSV file, with the fallback *)

Section CsvWrite.
Context (U : unicode_tables).

Local Abbreviation primary := (py "Omoding.csv").
Local Abbreviation fallback := (py "Omoding_new.csv").
Local Abbreviation locked_notice :=
  (Scraper.PrintLine (py "Omoding.csv is locked (close it in Excel/other apps). Writing to Omoding_new.csv instead.")).
Local Abbreviation fieldnames :=
  [py "source_page"; py "category"; py "item_name"; py "description";
   py "price"].

(** What one call of [save_to_csv] does. *)
Lemma save_to_csv_run rows filename w :
  Scraper.save_to_csv rows filename w =
    match Scraper.unwritable w !! filename with
    | Some e =>
        ({| Scraper.files := Scraper.files w;
            Scraper.unwritable := Scraper.unwritable w;
            Scraper.io_log :=
              Scraper.io_log w ++ [Scraper.OpenForWriting filename] |},
         inl e)
    | None =>
        ({| Scraper.files :=
              <[filename := {| Scraper.header := fieldnames;
                               Scraper.records := rows |}]> (Scraper.files w);
            Scraper.unwritable := Scraper.unwritable w;
            Scraper.io_log :=
              (Scraper.io_log w ++ [Scraper.OpenForWriting filename])
              ++ [Scraper.PrintLine
                    (py "Saved " ++ Scraper.str_of_nat (length rows)
                     ++ py " records to " ++ filename)] |},
         inr ())
    end.
Proof.
  unfold Scraper.save_to_csv, Scraper.open_w, Scraper.write_file, Scraper.log.
  unfold mbind, M_bind, bind, modify, get, raise, ret. simpl.
  destruct (Scraper.unwritable w !! filename); reflexivity.
Qed.

(** C9. When opening the primary path raises [PermissionError], the same
    rows are written to the fallback path and the run goes on; the fallback
    is opened once, and an exception it raises ends the run. *)
Theorem locked_primary_falls_back (all_data : list Scraper.row)
    (w : Scraper.world) :
  Scraper.unwritable w !! primary = Some PermissionError →
  let rows := Scraper.unique_data U all_data in
  let attempts :=
    Scraper.io_log w
    ++ [Scraper.OpenForWriting primary; locked_notice;
        Scraper.OpenForWriting fallback] in
  Scraper.main U all_data w =
    match Scraper.unwritable w !! fallback with
    | Some e =>
        ({| Scraper.files := Scraper.files w;
            Scraper.unwritable := Scraper.unwritable w;
            Scraper.io_log := attempts |},
         inl e)
    | None =>
        ({| Scraper.files :=
              <[fallback := {| Scraper.header := fieldnames;
                               Scraper.records := rows |}]> (Scraper.files w);
            Scraper.unwritable := Scraper.unwritable w;
            Scraper.io_log :=
              attempts
              ++ [Scraper.PrintLine
                    (py "Saved " ++ Scraper.str_of_nat (length rows)
                     ++ py " records to " ++ fallback);
                  Scraper.PrintLine
                    (10 :: py "Total unique records: "
                     ++ Scraper.str_of_nat (length rows))] |},
         inr ())
    end.
Proof.
  intros Hlocked rows attempts. unfold Scraper.main.
  change (Scraper.unique_data U all_data) with rows.
  unfold mbind, M_bind, bind, try_except.
  rewrite save_to_csv_run, Hlocked.
  rewrite decide_True by done.
  unfold Scraper.log at 1, modify at 1. rewrite save_to_csv_run. simpl.
  subst attempts.
  destruct (Scraper.unwritable w !! fallback) as [e|].
  - f_equal. f_equal. by rewrite <- !app_assoc.
  - unfold Scraper.log, modify. simpl. f_equal. f_equal.
    by rewrite <- !app_assoc.
Qed.

(** Without a lock the primary path is written and the fallback is not
    touched; any other exception of the primary write ends the run. *)
Lemma primary_write_outcomes (all_data : list Scraper.row)
    (w : Scraper.world) :
  match Scraper.unwritable w !! primary with
  | None =>
      ∃ w', Scraper.main U all_data w = (w', inr ())
            ∧ Scraper.files w' !! primary =
                Some {| Scraper.header := fieldnames;
                        Scraper.records := Scraper.unique_data U all_data |}
            ∧ Scraper.files w' !! fallback = Scraper.files w !! fallback
  | Some e =>
      e ≠ PermissionError →
      ∃ w', Scraper.main U all_data w = (w', inl e)
            ∧ Scraper.files w' = Scraper.files w
  end.
Proof.
  unfold Scraper.main, mbind, M_bind, bind, try_except.
  rewrite save_to_csv_run.
  destruct (Scraper.unwritable w !! primary) as [e|].
  - intros He. rewrite decide_False by done. eauto.
  - unfold Scraper.log, modify. simpl. eexists. split; [done|]. simpl.
    split; [by rewrite lookup_insert_eq|].
    by rewrite lookup_insert_ne.
Qed.

End CsvWrite.

Lemma locked_primary_falls_back_witness :
  (let w := {| Scraper.files := ∅;
               Scraper.unwritable := {[ py "Omoding.csv" := PermissionError ]};
               Scraper.io_log := [] |} in
   ∃ w', Scraper.main Sample.ascii_tables
           [Sample.row_of (py "Pumpkin Soup"); Sample.row_of (py "pumpkin soup")] w
         = (w', inr ())
         ∧ Scraper.records <$> (Scraper.files w' !! py "Omoding_new.csv")
           = Some [Sample.row_of (py "Pumpkin Soup")]
         ∧ Scraper.files w' !! py "Omoding.csv" = None)
  ∧ (let w := {| Scraper.files := ∅;
                 Scraper.unwritable :=
                   {[ py "Omoding.csv" := PermissionError;
                      py "Omoding_new.csv" := PermissionError ]};
                 Scraper.io_log := [] |} in
     ∃ w', Scraper.main Sample.ascii_tables
             [Sample.row_of (py "Pumpkin Soup")] w
           = (w', inl PermissionError)
           ∧ Scraper.files w' = ∅
           ∧ Scraper.io_log w'
             = [Scraper.OpenForWriting (py "Omoding.csv");
                Scraper.PrintLine (py "Omoding.csv is locked (close it in Excel/other apps). Writing to Omoding_new.csv instead.");
                Scraper.OpenForWriting (py "Omoding_new.csv")]).
Proof.
  split; intros w.
  - pose proof (locked_primary_falls_back Sample.ascii_tables
                  [Sample.row_of (py "Pumpkin Soup");
                   Sample.row_of (py "pumpkin soup")] w) as H.
    eexists. split; [apply H; vm_compute; reflexivity|].
    split; vm_compute; reflexivity.
  - pose proof (locked_primary_falls_back Sample.ascii_tables
                  [Sample.row_of (py "Pumpkin Soup")] w) as H.
    eexists. split; [apply H; vm_compute; reflexivity|].
    split; vm_compute; reflexivity.
Defined.

(** ** The classification handler *)

Section MaxAndSort.

Lemma float_lt_true x y : App.float_lt x y = true ↔ (x < y)%Q.
Proof.
  unfold App.float_lt. rewrite negb_true_iff, <- not_true_iff_false.
  rewrite Qle_bool_iff. split; [apply Qnot_le_lt | apply Qlt_not_le].
Qed.

Lemma float_lt_false x y : App.float_lt x y = false ↔ (y <= x)%Q.
Proof. unfold App.float_lt. by rewrite negb_false_iff, Qle_bool_iff. Qed.

(** The running maximum is one of the items and bounds them all. *)
Lemma foldl_max_spec (a : Q) (r : list Q) :
  let m := foldl (λ m item, if App.float_lt m item then item else m) a r in
  m ∈ a :: r ∧ (a <= m)%Q ∧ Forall (λ p, (p <= m)%Q) r.
Proof.
  revert a. induction r as [|x r IH]; intros a; simpl.
  - split; [left|]. split; [apply Qle_refl | constructor].
  - destruct (App.float_lt a x) eqn:Hlt.
    + destruct (IH x) as (Hin & Hle & Hall). apply float_lt_true in Hlt.
      split; [by right|]. split.
      * eapply Qle_trans; [apply Qlt_le_weak, Hlt | done].
      * by constructor.
    + destruct (IH a) as (Hin & Hle & Hall). apply float_lt_false in Hlt.
      split.
      * apply elem_of_cons in Hin as [-> | Hin]; [left | right; by right].
      * split; [done|]. constructor; [|done]. by eapply Qle_trans.
Qed.

Context {A : Type} (key : A → Q).

Lemma insert_by_perm x l : App.insert_by key x l ≡ₚ x :: l.
Proof.
  induction l as [|y l IH]; simpl; [done|].
  destruct (App.float_lt (key x) (key y)); [done|].
  rewrite IH. apply perm_swap.
Qed.

Lemma insert_by_sorted x l :
  StronglySorted (λ a b, (key a <= key b)%Q) l →
  StronglySorted (λ a b, (key a <= key b)%Q) (App.insert_by key x l).
Proof.
  induction 1 as [|y l Hs IH Hall]; simpl; [repeat constructor|].
  destruct (App.float_lt (key x) (key y)) eqn:Hlt.
  - apply float_lt_true, Qlt_le_weak in Hlt.
    constructor; [by constructor|]. constructor; [done|].
    eapply Forall_impl; [done|]. intros z Hz. simpl in *.
    by eapply Qle_trans.
  - apply float_lt_false in Hlt. constructor; [done|].
    rewrite insert_by_perm. by constructor.
Qed.

Lemma stable_sort_acc_perm acc l :
  foldl (λ acc x, App.insert_by key x acc) acc l ≡ₚ l ++ acc.
Proof.
  revert acc. induction l as [|x l IH]; intros acc; simpl; [done|].
  rewrite IH, insert_by_perm. by rewrite Permutation_middle.
Qed.

Lemma stable_sort_acc_sorted acc l :
  StronglySorted (λ a b, (key a <= key b)%Q) acc →
  StronglySorted (λ a b, (key a <= key b)%Q)
    (foldl (λ acc x, App.insert_by key x acc) acc l).
Proof.
  revert acc. induction l as [|x l IH]; intros acc Hacc; simpl; [done|].
  by apply IH, insert_by_sorted.
Qed.

Lemma StronglySorted_rev_flip (R : relation A) l :
  StronglySorted R l → StronglySorted (flip R) (rev l).
Proof.
  induction 1 as [|x l Hs IH Hall]; simpl; [constructor|].
  apply StronglySorted_app_2; [|done|repeat constructor].
  intros x1 x2 H1 ->%list_elem_of_singleton. unfold flip.
  rewrite Forall_forall in Hall. apply Hall.
  by rewrite list_elem_of_In, in_rev, <- list_elem_of_In.
Qed.

Lemma sorted_reverse_perm l : App.sorted_reverse key l ≡ₚ l.
Proof.
  unfold App.sorted_reverse, App.stable_sort.
  rewrite <- Permutation_rev, stable_sort_acc_perm, app_nil_r.
  by rewrite <- Permutation_rev.
Qed.

Lemma sorted_reverse_descending l :
  StronglySorted (λ a b, (key b <= key a)%Q) (App.sorted_reverse key l).
Proof.
  unfold App.sorted_reverse, App.stable_sort.
  apply (StronglySorted_rev_flip (λ a b, (key a <= key b)%Q)).
  apply stable_sort_acc_sorted. constructor.
Qed.

End MaxAndSort.

(** Items with equal keys keep their input order, as [sorted] promises. *)
Example sorted_reverse_stable :
  App.sorted_reverse snd
    [(py "food", 1 # 4); (py "cake", 1 # 2); (py "wines", 1 # 4)]%Q
  = [(py "cake", 1 # 2); (py "food", 1 # 4); (py "wines", 1 # 4)]%Q.
Proof. reflexivity. Qed.

Section Handler.
Context (U : unicode_tables) (K : App.nltk) (A : App.artefacts).
Context (format_percent : Q → pystr).

Local Abbreviation shown s evs :=
  ({| App.input_text := App.input_text s; App.trace := App.trace s ++ evs |}).
Local Abbreviation bar :=
  (λ cp : pystr * Q,
     App.StProgress cp.2 (cp.1 ++ py ": " ++ format_percent cp.2)).
Local Abbreviation headline prediction :=
  (App.StSuccess
     (py "**Predicted Category: " ++ str_upper U prediction ++ py "**")).
Local Abbreviation blurb prediction :=
  (App.StMarkdown (App.dict_get App.CATEGORY_INFO prediction prediction)).

(** C4. With an empty or whitespace-only text the Classify button only
    shows the warning: no call reaches the vectoriser or the model, and the
    session state stays as it was. *)
Theorem blank_input_only_warns (user_input : pystr) (s : App.app_state) :
  forallb is_space user_input = true →
  App.on_classify_click U K A format_percent user_input s =
    (shown s [App.StWarning (py "Please enter some text to classify.")],
     inr ()).
Proof.
  intros Hblank. unfold App.on_classify_click.
  by rewrite (strip_blank _ Hblank).
Qed.

Lemma run_emit {B} (e : App.event) (k : () → M App.app_state B) s :
  (App.emit e ≫= k) s = k () (shown s [e]).
Proof. done. Qed.

Lemma run_ret {S B C} (x : B) (k : B → M S C) (s : S) :
  (ret x ≫= k) s = k x s.
Proof. done. Qed.

Lemma index0_cons {S B} (x : B) (r : list B) : @index0 S B (x :: r) = ret x.
Proof. done. Qed.

Lemma py_max_cons {S} (x : Q) (r : list Q) :
  @App.py_max S (x :: r) =
    ret (foldl (λ m item, if App.float_lt m item then item else m) x r).
Proof. done. Qed.

Lemma progress_bars_run (l : list (pystr * Q)) (s : App.app_state) :
  Forall (λ cp, (0 <= cp.2)%Q ∧ (cp.2 <= 1)%Q) l →
  for_each l (λ '(cls, prob),
                App.st_progress prob (cls ++ py ": " ++ format_percent prob)) s
  = (shown s (bar <$> l), inr ()).
Proof.
  intros Hall. revert s.
  induction Hall as [|[cls prob] l [H0 H1] _ IH]; intros s.
  - unfold for_each, ret. rewrite fmap_nil, app_nil_r. by destruct s.
  - cbn [for_each]. unfold bind, App.st_progress. cbn [fst snd] in H0, H1.
    apply Qle_bool_iff in H0, H1. rewrite H0, H1. cbn [andb].
    unfold App.emit, modify. rewrite IH.
    cbn [App.input_text App.trace]. rewrite fmap_cons.
    by rewrite <- app_assoc.
Qed.

(** C5. With a model that has [predict_proba], the page shows a confidence
    that is the largest of the class probabilities, and one bar per class,
    in descending order of probability; with a model that has none, it
    shows the predicted category and its description only. *)
Theorem classify_text_distribution (text : pystr) (s : App.app_state)
    (prediction : pystr) (others : list pystr) :
  let processed := App.preprocess U K text in
  let vec := App.tfidf_transform A [processed] in
  App.model_predict A vec = prediction :: others →
  match App.model_predict_proba A with
  | Some predict_proba =>
      ∀ (proba : list Q) (more : App.matrix),
        predict_proba vec = proba :: more →
        proba ≠ [] →
        length (App.model_classes_ A) = length proba →
        Forall (λ p, (0 <= p)%Q ∧ (p <= 1)%Q) proba →
        let dist := App.sorted_reverse snd (zip (App.model_classes_ A) proba) in
        ∃ confidence,
          App.classify_text U K A format_percent text s =
            (shown s
               ([App.TfidfTransform [processed]; App.ModelPredict vec;
                 App.ModelPredictProba vec; headline prediction;
                 blurb prediction;
                 App.StMarkdown
                   (py "**Confidence:** " ++ format_percent confidence);
                 App.StMarkdown (py "#### All Category Probabilities:")]
                ++ (bar <$> dist)),
             inr ())
          ∧ confidence ∈ proba
          ∧ Forall (λ p, (p <= confidence)%Q) proba
          ∧ dist.*1 ≡ₚ App.model_classes_ A
          ∧ dist.*2 ≡ₚ proba
          ∧ StronglySorted (λ a b, (b.2 <= a.2)%Q) dist
  | None =>
      App.classify_text U K A format_percent text s =
        (shown s [App.TfidfTransform [processed]; App.ModelPredict vec;
                  headline prediction; blurb prediction],
         inr ())
  end.
Proof.
  intros processed vec Hpred.
  destruct (App.model_predict_proba A) as [predict_proba|] eqn:Hpp.
  - intros proba more Hproba Hne Hlen Hrange dist.
    destruct proba as [|p0 ps]; [done|].
    pose proof (foldl_max_spec p0 ps) as (Hin & Hle & Hall).
    set (confidence :=
           foldl (λ m item, if App.float_lt m item then item else m) p0 ps)
      in *.
    assert (Hperm : dist ≡ₚ zip (App.model_classes_ A) (p0 :: ps))
      by apply sorted_reverse_perm.
    exists confidence. split; [|split; [done|split; [by constructor|]]].
    + unfold App.classify_text. fold processed. fold vec.
      rewrite Hpp, !run_emit, Hpred, index0_cons.
      rewrite run_ret, run_emit, Hproba, index0_cons.
      rewrite run_ret, py_max_cons. fold confidence.
      rewrite run_ret, !run_emit, progress_bars_run.
      * cbn [App.input_text App.trace]. fold dist.
        by rewrite <- !app_assoc.
      * fold dist. rewrite Forall_forall. intros [cls prob] Hcp. simpl.
        rewrite Hperm in Hcp. apply elem_of_zip_r in Hcp.
        rewrite Forall_forall in Hrange. by apply Hrange.
    + split; [|split].
      * rewrite Hperm. by rewrite fst_zip by lia.
      * rewrite Hperm. by rewrite snd_zip by lia.
      * apply (sorted_reverse_descending snd).
  - unfold App.classify_text. fold processed. fold vec.
    rewrite Hpp, !run_emit, Hpred, index0_cons.
    rewrite run_ret, run_emit. unfold App.emit, modify.
    cbn [App.input_text App.trace].
    by rewrite <- !app_assoc.
Qed.

End Handler.

Lemma blank_input_only_warns_witness :
  App.on_classify_click Sample.ascii_tables Sample.nltk_fragment
    Sample.toy_model Sample.percent (py "   ") Sample.fresh_page
  = ({| App.input_text := [];
        App.trace := [App.StWarning (py "Please enter some text to classify.")] |},
     inr ()).
Proof.
  apply (blank_input_only_warns Sample.ascii_tables Sample.nltk_fragment
           Sample.toy_model Sample.percent (py "   ") Sample.fresh_page).
  vm_compute. reflexivity.
Defined.

Lemma classify_text_distribution_witness :
  (∃ confidence,
     (App.classify_text Sample.ascii_tables Sample.nltk_fragment
        Sample.toy_model Sample.percent
        (py "Grilled beef fillet with mushroom sauce") Sample.fresh_page).2
     = inr ()
     ∧ confidence ∈ [1 # 4; 1 # 2; 1 # 4]%Q
     ∧ Forall (λ p, (p <= confidence)%Q) [1 # 4; 1 # 2; 1 # 4]%Q)
  ∧ App.trace
      (App.classify_text Sample.ascii_tables Sample.nltk_fragment
         Sample.toy_model_without_proba Sample.percent
         (py "Grilled beef fillet with mushroom sauce") Sample.fresh_page).1
    = [App.TfidfTransform [py "grill beef fillet mushroom sauce"];
       App.ModelPredict [[inject_Z 32]];
       App.StSuccess (py "**Predicted Category: FOOD**");
       App.StMarkdown (py "Food Menu - This text describes a food or meal item")].
Proof.
  split.
  - destruct (classify_text_distribution Sample.ascii_tables
                Sample.nltk_fragment Sample.toy_model Sample.percent
                (py "Grilled beef fillet with mushroom sauce")
                Sample.fresh_page (py "food") [] eq_refl
                [1 # 4; 1 # 2; 1 # 4]%Q [] eq_refl)
      as (confidence & Hrun & Hin & Hmax & _).
    + discriminate.
    + reflexivity.
    + repeat constructor; unfold Qle; simpl; lia.
    + exists confidence. rewrite Hrun. done.
  - rewrite (classify_text_distribution Sample.ascii_tables
               Sample.nltk_fragment Sample.toy_model_without_proba
               Sample.percent (py "Grilled beef fillet with mushroom sauce")
               Sample.fresh_page (py "food") [] eq_refl).
    vm_compute. reflexivity.
Defined.

(** The run with the probabilities, evaluated. *)
Example classify_text_run :
  App.trace
    (App.classify_text Sample.ascii_tables Sample.nltk_fragment
       Sample.toy_model Sample.percent
       (py "Grilled beef fillet with mushroom sauce") Sample.fresh_page).1
  = [App.TfidfTransform [py "grill beef fillet mushroom sauce"];
     App.ModelPredict [[inject_Z 32]];
     App.ModelPredictProba [[inject_Z 32]];
     App.StSuccess (py "**Predicted Category: FOOD**");
     App.StMarkdown (py "Food Menu - This text describes a food or meal item");
     App.StMarkdown (py "**Confidence:** 50.0%");
     App.StMarkdown (py "#### All Category Probabilities:");
     App.StProgress (1 # 2) (py "food: 50.0%");
     App.StProgress (1 # 4) (py "cake: 25.0%");
     App.StProgress (1 # 4) (py "wines: 25.0%")].
Proof. vm_compute. reflexivity. Qed.

(** ** The normaliser *)

Section CleaningFacts.
Implicit Types (s t : pystr) (c : Z) (ts : list pystr).

(** A character that the cleaning steps leave in the text. *)
Local Abbreviation plain c := (is_az c = true ∨ (c = SPACE)%Z).

(** Settles the comparisons of the goal that the context decides. *)
Local Ltac settle_comparisons :=
  repeat match goal with
    | |- context [(?a <=? ?b)%Z] =>
        first [ rewrite (proj2 (Z.leb_le a b)) by lia
              | rewrite (proj2 (Z.leb_gt a b)) by lia ]
    | |- context [(?a <? ?b)%Z] =>
        first [ rewrite (proj2 (Z.ltb_lt a b)) by lia
              | rewrite (proj2 (Z.ltb_ge a b)) by lia ]
    | |- context [(?a =? ?b)%Z] =>
        first [ rewrite (proj2 (Z.eqb_eq a b)) by lia
              | rewrite (proj2 (Z.eqb_neq a b)) by lia ]
    end.

Lemma is_az_bounds c : is_az c = true ↔ 97 ≤ c ≤ 122.
Proof. unfold is_az. rewrite andb_true_iff, !Z.leb_le. done. Qed.

Lemma is_az_not_space c : is_az c = true → is_space c = false.
Proof.
  intros H%is_az_bounds. unfold is_space. settle_comparisons. done.
Qed.

Lemma is_az_ascii c : is_az c = true → is_ascii c = true.
Proof.
  intros H%is_az_bounds. unfold is_ascii. settle_comparisons. done.
Qed.

Lemma is_az_lower c : is_az c = true → ascii_lower c = c.
Proof.
  intros H%is_az_bounds. unfold ascii_lower, is_AZ. settle_comparisons. done.
Qed.

Lemma forallb_Forall_true (f : Z → bool) s :
  forallb f s = true ↔ Forall (λ c, f c = true) s.
Proof.
  induction s as [|c s IH]; simpl.
  - split; [constructor | done].
  - rewrite andb_true_iff, IH, Forall_cons. done.
Qed.

Lemma re_sub_non_letter_bind s :
  App.re_sub_non_letter s =
    s ≫= (λ c, if negb (is_az c || is_space c) then [SPACE] else [c]).
Proof.
  unfold App.re_sub_non_letter. induction s as [|c s IH]; [done|].
  rewrite fmap_cons, bind_cons, <- IH.
  by destruct (is_az c || is_space c).
Qed.

(** The two ways of collapsing whitespace runs agree. *)
Lemma collapse_ws_foldr s :
  App.collapse_ws false s = foldr App.Spec.squeeze [] s
  ∧ ∀ c, is_space c = true →
      App.Spec.squeeze c (foldr App.Spec.squeeze [] s)
      = SPACE :: App.collapse_ws true s.
Proof.
  induction s as [|d r [IH1 IH2]]; simpl.
  - split; [done|]. intros c Hc. unfold App.Spec.squeeze. by rewrite Hc.
  - destruct (is_space d) eqn:Hd.
    + rewrite (IH2 d Hd). split; [done|].
      intros c Hc. unfold App.Spec.squeeze at 1. by rewrite Hc.
    + assert (Hsq : App.Spec.squeeze d (foldr App.Spec.squeeze [] r)
                    = d :: foldr App.Spec.squeeze [] r)
        by (unfold App.Spec.squeeze at 1; by rewrite Hd).
      rewrite Hsq, IH1. split; [done|].
      intros c Hc. unfold App.Spec.squeeze at 1. rewrite Hc.
      destruct (Z.eqb_spec d SPACE) as [-> | _]; [discriminate | done].
Qed.

Lemma re_sub_non_letter_plain s :
  Forall (λ c, is_az c = true ∨ is_space c = true) (App.re_sub_non_letter s).
Proof.
  unfold App.re_sub_non_letter. apply Forall_fmap, Forall_forall.
  intros c _. simpl.
  destruct (is_az c) eqn:Ha; simpl; [by left|].
  destruct (is_space c) eqn:Hs; by right.
Qed.

Lemma collapse_ws_plain b s :
  Forall (λ c, is_az c = true ∨ is_space c = true) s →
  Forall (λ c, plain c) (App.collapse_ws b s).
Proof.
  intros H. revert b. induction H as [|c s Hc _ IH]; intros b; simpl.
  - constructor.
  - destruct (is_space c) eqn:Hs.
    + destruct b; [apply IH|]. constructor; [by right | apply IH].
    + constructor; [|apply IH]. destruct Hc as [Hc | Hc]; [by left|congruence].
Qed.

Lemma drop_while_Forall (P : Z → Prop) p s :
  Forall P s → Forall P (drop_while p s).
Proof.
  induction 1 as [|c s Hc Hs IH]; simpl; [constructor|].
  destruct (p c); [done | by constructor].
Qed.

Lemma Forall_rev_2 (P : Z → Prop) s : Forall P s → Forall P (rev s).
Proof.
  rewrite !Forall_forall. intros H c Hc. apply H.
  by rewrite list_elem_of_In, in_rev, <- list_elem_of_In.
Qed.

Lemma strip_Forall (P : Z → Prop) s : Forall P s → Forall P (strip s).
Proof.
  intros H. unfold strip, rstrip, lstrip.
  by apply Forall_rev_2, drop_while_Forall, Forall_rev_2, drop_while_Forall.
Qed.

(** What reaches the tokeniser holds lowercase letters and spaces only. *)
Lemma cleaned_text_plain s :
  Forall (λ c, plain c)
    (strip (App.re_sub_ws_runs (App.re_sub_non_letter s))).
Proof. apply strip_Forall, collapse_ws_plain, re_sub_non_letter_plain. Qed.

(** *** Joined tokens *)

Lemma str_join_cons sep t ts :
  ts ≠ [] → str_join sep (t :: ts) = t ++ sep ++ str_join sep ts.
Proof. by destruct ts. Qed.

Lemma str_join_snoc sep ts t :
  ts ≠ [] → str_join sep (ts ++ [t]) = str_join sep ts ++ sep ++ t.
Proof.
  induction ts as [|u ts IH]; [done|]. intros _.
  destruct ts as [|v ts]; [done|].
  change ((u :: v :: ts) ++ [t]) with (u :: ((v :: ts) ++ [t])).
  rewrite str_join_cons by done. rewrite IH by done.
  rewrite (str_join_cons sep u (v :: ts)) by done.
  by rewrite <- !app_assoc.
Qed.

Lemma str_join_plain ts :
  Forall (λ t, forallb is_az t = true) ts →
  Forall (λ c, plain c) (str_join [SPACE] ts).
Proof.
  induction 1 as [|t ts Ht Hts IH]; [constructor|].
  assert (Forall (λ c, plain c) t) as Htp.
  { apply forallb_Forall_true in Ht. eapply Forall_impl; [done|].
    intros c Hc. by left. }
  destruct ts as [|u ts]; [done|].
  rewrite str_join_cons by done.
  apply Forall_app. split; [done|]. constructor; [by right | done].
Qed.

(** A token of letters passes through the collapsing unchanged. *)
Lemma collapse_ws_token b t rest :
  t ≠ [] → forallb is_az t = true →
  App.collapse_ws b (t ++ rest) = t ++ App.collapse_ws false rest.
Proof.
  intros Hne Ht. revert b. induction t as [|c t IH]; [done|]. intros b.
  simpl in Ht. apply andb_true_iff in Ht as [Hc Ht].
  simpl. rewrite (is_az_not_space c Hc). f_equal.
  destruct t as [|d t]; [done|]. by apply IH.
Qed.

Lemma collapse_ws_join b ts :
  Forall (λ t, t ≠ [] ∧ forallb is_az t = true) ts →
  App.collapse_ws b (str_join [SPACE] ts) = str_join [SPACE] ts.
Proof.
  intros H. revert b. induction H as [|t ts [Hne Ht] Hts IH]; [done|].
  intros b. destruct ts as [|u ts].
  - simpl. rewrite <- (app_nil_r t) at 1.
    rewrite collapse_ws_token by done. simpl. by rewrite app_nil_r.
  - rewrite str_join_cons by done.
    rewrite collapse_ws_token by done. f_equal.
    change ([SPACE] ++ str_join [SPACE] (u :: ts))
      with (SPACE :: str_join [SPACE] (u :: ts)).
    simpl App.collapse_ws. by rewrite IH.
Qed.

Lemma drop_while_join ts :
  Forall (λ t, t ≠ [] ∧ forallb is_az t = true) ts →
  drop_while is_space (str_join [SPACE] ts) = str_join [SPACE] ts.
Proof.
  intros H. destruct H as [|t ts [Hne Ht] Hts]; [done|].
  destruct t as [|c t]; [done|].
  simpl in Ht. apply andb_true_iff in Ht as [Hc _].
  apply is_az_not_space in Hc.
  destruct ts as [|u ts].
  - by apply drop_while_head.
  - rewrite str_join_cons by done. by apply drop_while_head.
Qed.

Lemma rev_str_join ts :
  rev (str_join [SPACE] ts) = str_join [SPACE] (rev (@rev Z <$> ts)).
Proof.
  induction ts as [|t ts IH]; [done|].
  destruct ts as [|u ts]; [done|].
  rewrite str_join_cons by done. rewrite !rev_app_distr, IH.
  change (rev (@rev Z <$> t :: u :: ts))
    with (rev (@rev Z <$> u :: ts) ++ [rev t]).
  rewrite str_join_snoc.
  - by rewrite <- app_assoc.
  - rewrite fmap_cons. simpl. by destruct (rev (@rev Z <$> ts)).
Qed.

Lemma tokens_rev ts :
  Forall (λ t, t ≠ [] ∧ forallb is_az t = true) ts →
  Forall (λ t, t ≠ [] ∧ forallb is_az t = true) (rev (@rev Z <$> ts)).
Proof.
  intros H. rewrite Forall_forall in H. apply Forall_forall. intros t Ht.
  rewrite list_elem_of_In, <- in_rev, <- list_elem_of_In in Ht.
  apply list_elem_of_fmap in Ht as (u & -> & Hu).
  destruct (H u Hu) as [Hne Haz]. split.
  - intros Hnil. apply Hne. by rewrite <- (rev_involutive u), Hnil.
  - by apply forallb_Forall_true, Forall_rev_2, forallb_Forall_true.
Qed.

Lemma strip_join ts :
  Forall (λ t, t ≠ [] ∧ forallb is_az t = true) ts →
  strip (str_join [SPACE] ts) = str_join [SPACE] ts.
Proof.
  intros H. unfold strip, rstrip, lstrip.
  rewrite drop_while_join by done.
  rewrite rev_str_join, drop_while_join.
  - by rewrite <- rev_str_join, rev_involutive.
  - by apply tokens_rev.
Qed.

End CleaningFacts.

Section Normaliser.
Context (U : unicode_tables) (K : App.nltk).
Implicit Types (raw s t : pystr) (ts : list pystr).

Local Abbreviation cleaned raw :=
  (strip (App.re_sub_ws_runs (App.re_sub_non_letter (str_lower U raw)))).

Lemma preprocess_tokens raw :
  App.preprocess U K raw =
    str_join [SPACE]
      (App.Spec.lemmatize_twice K <$>
         filter (λ t, (t ∉ App.stop_words K) ∧ (2 < length t)%nat)
                (App.word_tokenize K (cleaned raw))).
Proof.
  unfold App.preprocess, App.Spec.lemmatize_twice.
  by rewrite <- list_fmap_compose.
Qed.

Lemma preprocess_normalize raw :
  App.preprocess U K raw = App.Spec.normalize U K raw.
Proof.
  rewrite preprocess_tokens.
  unfold App.Spec.normalize, App.Spec.step7_join, App.Spec.step6_lemmatize,
    App.Spec.step5_drop, App.Spec.step4_tokenize,
    App.Spec.step3_collapse_trim, App.Spec.step2_strip_non_letters,
    App.Spec.step1_lowercase.
  rewrite <- re_sub_non_letter_bind.
  rewrite <- (proj1 (collapse_ws_foldr _)).
  do 2 f_equal. apply list_filter_iff. intros t.
  split.
  - intros [Hstop Hlen] [Hin | Hshort]; [done | lia].
  - intros Hnot. split.
    + intros Hin. apply Hnot. by left.
    + destruct (decide (2 < length t)%nat) as [|Hle]; [done|].
      exfalso. apply Hnot. right. lia.
Qed.

(** C1. The normaliser is the composition of the seven steps, on every
    input; when no token survives the filter its result is the empty
    string. *)
Theorem preprocess_refines_spec raw :
  App.preprocess U K raw = App.Spec.normalize U K raw
  ∧ (App.Spec.step5_drop K
       (App.Spec.step4_tokenize K
          (App.Spec.step3_collapse_trim
             (App.Spec.step2_strip_non_letters
                (App.Spec.step1_lowercase U raw)))) = [] →
     App.preprocess U K raw = []).
Proof.
  split; [apply preprocess_normalize|].
  intros Hnone. rewrite preprocess_normalize.
  unfold App.Spec.normalize. by rewrite Hnone.
Qed.

(** C3, as the code has it.  With a tokeniser that returns words of
    letters on text of letters and spaces, the output is the space-joined
    list of the verb-then-noun lemmas of tokens that are lowercase
    alphabetic, longer than two characters and not stopwords. *)
Theorem output_tokens_are_lemmas raw :
  (∀ s t, Forall (λ c, is_az c = true ∨ c = SPACE) s →
          t ∈ App.word_tokenize K s → forallb is_az t = true) →
  ∃ ts, Forall (App.Spec.normalized_token K) ts
        ∧ App.preprocess U K raw
          = str_join [SPACE] (App.Spec.lemmatize_twice K <$> ts).
Proof.
  intros Htok. eexists. split; [|apply preprocess_tokens].
  apply Forall_forall. intros t [[Hstop Hlen] Hin]%list_elem_of_filter.
  split; [|done]. eapply Htok; [|done]. apply cleaned_text_plain.
Qed.

Lemma filter_all {A} (P : A → Prop) `{∀ x, Decision (P x)} (l : list A) :
  Forall P l → filter P l = l.
Proof.
  induction 1 as [|x l Hx _ IH]; [done|].
  rewrite filter_cons_True by done. by rewrite IH.
Qed.

Lemma fmap_fixed {A} (f : A → A) (l : list A) :
  Forall (λ x, f x = x) l → f <$> l = l.
Proof.
  induction 1 as [|x l Hx _ IH]; [done|]. by rewrite fmap_cons, Hx, IH.
Qed.

(** Lowercasing leaves text of lowercase letters and spaces alone. *)
Lemma str_lower_plain s :
  Forall (λ c, is_az c = true ∨ c = SPACE) s → str_lower U s = s.
Proof.
  intros H. unfold str_lower.
  assert (forallb is_ascii s = true) as ->.
  { apply forallb_Forall_true. eapply Forall_impl; [done|].
    intros c [Hc | ->]; [by apply is_az_ascii | done]. }
  apply fmap_fixed. eapply Forall_impl; [done|].
  intros c [Hc | ->]; [by apply is_az_lower | done].
Qed.

Lemma re_sub_non_letter_plain_id s :
  Forall (λ c, is_az c = true ∨ c = SPACE) s → App.re_sub_non_letter s = s.
Proof.
  intros H. unfold App.re_sub_non_letter.
  apply fmap_fixed. eapply Forall_impl; [done|].
  intros c [Hc | ->]; [by rewrite Hc | done].
Qed.

(** C2, as the code has it.  A text that is the single-space join of
    tokens that are lowercase alphabetic, longer than two characters, not
    stopwords, left unchanged by the two lemmatisation passes, and that the
    tokeniser splits back into those tokens, is a fixed point of the
    normaliser. *)
Theorem preprocess_fixes_normalized ts :
  Forall (App.Spec.normalized_token K) ts →
  Forall (λ t, App.Spec.lemmatize_twice K t = t) ts →
  App.word_tokenize K (str_join [SPACE] ts) = ts →
  App.preprocess U K (str_join [SPACE] ts) = str_join [SPACE] ts.
Proof.
  intros Hnorm Hlem Htok. unfold App.Spec.normalized_token in Hnorm.
  assert (Hletters : Forall (λ t, forallb is_az t = true) ts).
  { eapply Forall_impl; [exact Hnorm|]. by intros t (? & _). }
  assert (Hwords : Forall (λ t, t ≠ [] ∧ forallb is_az t = true) ts).
  { eapply Forall_impl; [exact Hnorm|]. intros t (Haz & Hlen & _).
    split; [|done]. intros ->. simpl in Hlen. lia. }
  assert (Hkeep : Forall (λ t, (t ∉ App.stop_words K) ∧ (2 < length t)%nat)
                    ts).
  { eapply Forall_impl; [exact Hnorm|]. by intros t (_ & Hlen & Hstop). }
  rewrite preprocess_tokens.
  rewrite str_lower_plain by by apply str_join_plain.
  rewrite re_sub_non_letter_plain_id by by apply str_join_plain.
  unfold App.re_sub_ws_runs. rewrite collapse_ws_join by done.
  rewrite strip_join by done.
  rewrite Htok, filter_all by done.
  by rewrite fmap_fixed.
Qed.

End Normaliser.

(** *** Runs on the sample fragments *)

(** Whitespace splitting returns words of letters on text of letters and
    spaces. *)
Lemma split_go_letters (s cur t : pystr) :
  Forall (λ c, is_az c = true) cur →
  Forall (λ c, is_az c = true ∨ c = SPACE) s →
  t ∈ split_go cur s → forallb is_az t = true.
Proof.
  intros Hcur Hs. revert cur Hcur.
  induction Hs as [|c s Hc _ IH]; intros cur Hcur; simpl.
  - destruct cur as [|d cur]; [by intros ?%elem_of_nil|].
    intros ->%list_elem_of_singleton.
    by apply forallb_Forall_true, Forall_rev_2.
  - destruct (is_space c) eqn:Hsp.
    + destruct cur as [|d cur]; [by apply IH|].
      intros [-> | Hin]%elem_of_cons; [|by apply (IH [])].
      by apply forallb_Forall_true, Forall_rev_2.
    + apply IH. constructor; [|done].
      destruct Hc as [Hc | ->]; [done | discriminate].
Qed.

Lemma str_split_letters (s t : pystr) :
  Forall (λ c, is_az c = true ∨ c = SPACE) s →
  t ∈ str_split s → forallb is_az t = true.
Proof. intros Hs. by apply split_go_letters. Qed.

Lemma preprocess_refines_spec_witness :
  App.preprocess Sample.ascii_tables Sample.nltk_fragment
    (py "to a in it at be") = [].
Proof.
  apply (preprocess_refines_spec Sample.ascii_tables Sample.nltk_fragment
           (py "to a in it at be")).
  vm_compute. reflexivity.
Defined.

Lemma output_tokens_are_lemmas_witness :
  ∃ ts, Forall (App.Spec.normalized_token Sample.nltk_fragment) ts
        ∧ App.preprocess Sample.ascii_tables Sample.nltk_fragment
            (py "The chefs were cooking delicious meals")
          = str_join [SPACE]
              (App.Spec.lemmatize_twice Sample.nltk_fragment <$> ts).
Proof.
  apply (output_tokens_are_lemmas Sample.ascii_tables Sample.nltk_fragment).
  exact str_split_letters.
Defined.

Lemma preprocess_fixes_normalized_witness :
  App.preprocess Sample.ascii_tables Sample.nltk_fragment
    (py "chef cook delicious meal") = py "chef cook delicious meal".
Proof.
  apply (preprocess_fixes_normalized Sample.ascii_tables Sample.nltk_fragment
           [py "chef"; py "cook"; py "delicious"; py "meal"]).
  - repeat constructor; vm_compute; congruence.
  - repeat constructor.
  - vm_compute. reflexivity.
Defined.

(** The example of the specification, on the fragment. *)
Example preprocess_chefs :
  App.preprocess Sample.ascii_tables Sample.nltk_fragment
    (py "The chefs were cooking delicious meals")
  = py "chef cook delicious meal".
Proof. vm_compute. reflexivity. Qed.

(** The verb lemma of "went" is "go": it appears in the output although
    it has two characters, and normalising the output again drops it. *)
Example preprocess_went :
  App.preprocess Sample.ascii_tables Sample.nltk_fragment (py "went")
  = py "go"
  ∧ App.preprocess Sample.ascii_tables Sample.nltk_fragment (py "go") = [].
Proof. vm_compute. done. Qed.

(** C2 as the specification states it fails on the raw string "went". *)
Lemma preprocess_idempotent_counterexample :
  ¬ (∀ raw : pystr,
       App.preprocess Sample.ascii_tables Sample.nltk_fragment
         (App.preprocess Sample.ascii_tables Sample.nltk_fragment raw)
       = App.preprocess Sample.ascii_tables Sample.nltk_fragment raw).
Proof.
  intros H. specialize (H (py "went")).
  destruct preprocess_went as [Hwent Hgo].
  rewrite Hwent, Hgo in H. discriminate.
Qed.

(** C3 as the specification states it fails on the raw string "went": the
    output token "go" has two characters. *)
Lemma output_token_length_counterexample :
  ¬ (∀ raw : pystr,
       Forall (App.Spec.normalized_token Sample.nltk_fragment)
         (str_split
            (App.preprocess Sample.ascii_tables Sample.nltk_fragment raw))).
Proof.
  intros H. specialize (H (py "went")).
  destruct preprocess_went as [Hwent _]. rewrite Hwent in H.
  change (str_split (py "go")) with [py "go"] in H.
  apply Forall_inv in H. destruct H as (_ & Hlen & _).
  vm_compute in Hlen. lia.
Qed.

(** * Further properties *)

(** ** Whitespace: stripping, collapsing, splitting and joining *)

Section WhitespaceFacts.
Implicit Types (s t w x y : pystr) (c d : Z) (b : bool) (ws : list pystr).

Local Abbreviation C := App.collapse_ws.
Local Abbreviation J := (str_join [SPACE]).
Local Abbreviation spaceless w := (Forall (λ c, is_space c = false) w).

Lemma lstrip_shape s :
  lstrip s = [] ∨ ∃ c r, lstrip s = c :: r ∧ is_space c = false.
Proof.
  unfold lstrip. induction s as [|c r IH]; simpl; [by left|].
  destruct (is_space c) eqn:Hc; [done|]. right. by exists c, r.
Qed.

Lemma lstrip_idem s : lstrip (lstrip s) = lstrip s.
Proof.
  destruct (lstrip_shape s) as [-> | (c & r & -> & Hc)]; [done|].
  by apply drop_while_head.
Qed.

Lemma drop_while_nil_iff (p : Z → bool) s :
  drop_while p s = [] ↔ forallb p s = true.
Proof.
  induction s as [|c r IH]; simpl; [done|].
  destruct (p c); simpl; [done|]. split; discriminate.
Qed.

Lemma drop_while_app (p : Z → bool) x y :
  drop_while p (x ++ y) =
    if forallb p x then drop_while p y else drop_while p x ++ y.
Proof.
  induction x as [|c x IH]; simpl; [done|].
  destruct (p c); simpl; [done | done].
Qed.

Lemma forallb_rev (p : Z → bool) s : forallb p (rev s) = forallb p s.
Proof.
  apply eq_true_iff_eq. rewrite !forallb_Forall_true. split; intros H.
  - rewrite <- (rev_involutive s). by apply Forall_rev_2.
  - by apply Forall_rev_2.
Qed.

Lemma rstrip_nil_iff s : rstrip s = [] ↔ forallb is_space s = true.
Proof.
  unfold rstrip. rewrite <- (forallb_rev _ s), <- drop_while_nil_iff.
  split; [|by intros ->].
  intros H. by rewrite <- (rev_involutive (drop_while _ _)), H.
Qed.

Lemma rstrip_idem s : rstrip (rstrip s) = rstrip s.
Proof.
  unfold rstrip. rewrite rev_involutive. f_equal. apply lstrip_idem.
Qed.

(** After a word that ends in a character that is no whitespace, the
    right strip works on the rest alone. *)
Lemma rstrip_app w d y :
  is_space d = false → rstrip ((w ++ [d]) ++ y) = (w ++ [d]) ++ rstrip y.
Proof.
  intros Hd. unfold rstrip.
  rewrite rev_app_distr, drop_while_app.
  destruct (forallb is_space (rev y)) eqn:Hy.
  - rewrite (drop_while_all _ _ Hy). simpl rev at 3. rewrite app_nil_r.
    rewrite rev_app_distr. simpl. rewrite Hd. simpl.
    by rewrite rev_involutive.
  - rewrite rev_app_distr. by rewrite rev_involutive.
Qed.

Lemma rstrip_cons_space c x :
  is_space c = true →
  rstrip (c :: x) = if rstrip x is [] then [] else c :: rstrip x.
Proof.
  intros Hc. unfold rstrip. simpl rev at 2. rewrite drop_while_app.
  destruct (forallb is_space (rev x)) eqn:Hx.
  - simpl. rewrite Hc. by rewrite (drop_while_all _ _ Hx).
  - rewrite rev_app_distr. simpl.
    destruct (rev (drop_while is_space (rev x))) eqn:Hr; [|done].
    exfalso. apply (f_equal (@rev Z)) in Hr. rewrite rev_involutive in Hr.
    simpl in Hr. apply drop_while_nil_iff in Hr. congruence.
Qed.

Lemma strip_cons_space c x : is_space c = true → strip (c :: x) = strip x.
Proof. intros Hc. unfold strip, lstrip. simpl. by rewrite Hc. Qed.

Lemma rstrip_head c x :
  is_space c = false → ∃ r, rstrip (c :: x) = c :: r.
Proof.
  intros Hc. unfold rstrip. simpl rev at 2.
  destruct (drop_while_stops is_space (rev x) c [] Hc) as [a' ->].
  rewrite rev_app_distr. simpl. by eexists.
Qed.

Lemma strip_idem s : strip (strip s) = strip s.
Proof.
  unfold strip.
  destruct (lstrip_shape s) as [H | (c & r & H & Hc)]; rewrite H;
    [reflexivity|].
  destruct (rstrip_head c r Hc) as [r' Hr].
  rewrite Hr. unfold lstrip. rewrite drop_while_head by done.
  by rewrite <- Hr, rstrip_idem.
Qed.

Lemma spaceless_lstrip w : spaceless w → lstrip w = w.
Proof.
  intros H. destruct H as [|c w Hc _]; [done|]. by apply drop_while_head.
Qed.

Lemma spaceless_rstrip w : spaceless w → rstrip w = w.
Proof.
  intros H. unfold rstrip. fold (lstrip (rev w)).
  rewrite (spaceless_lstrip (rev w)) by by apply Forall_rev_2.
  apply rev_involutive.
Qed.

Lemma spaceless_strip w : spaceless w → strip w = w.
Proof.
  intros H. unfold strip. rewrite spaceless_lstrip by done.
  by apply spaceless_rstrip.
Qed.

(** *** Collapsing *)

Lemma collapse_true_lstrip s : C true s = C false (lstrip s).
Proof.
  unfold lstrip. induction s as [|c r IH]; simpl; [done|].
  destruct (is_space c) eqn:Hc; [done|]. simpl. by rewrite Hc.
Qed.

Lemma collapse_idem b s : C b (C b s) = C b s.
Proof.
  revert b. induction s as [|c r IH]; intros b; simpl; [done|].
  destruct (is_space c) eqn:Hc.
  - destruct b; [apply IH|]. simpl. by rewrite IH.
  - simpl. rewrite Hc. by rewrite IH.
Qed.

Lemma collapse_spaceless b w y :
  w ≠ [] → spaceless w → C b (w ++ y) = w ++ C false y.
Proof.
  intros Hne Hw. revert b. induction Hw as [|c w Hc Hw IH]; [done|].
  intros b. simpl. rewrite Hc. f_equal.
  destruct w as [|d w]; [done|]. by apply IH.
Qed.

Lemma collapse_spaceless_id b w : spaceless w → C b w = w.
Proof.
  intros Hw. destruct w as [|c w]; [done|].
  rewrite <- (app_nil_r (c :: w)) at 1.
  rewrite collapse_spaceless by done. simpl. by rewrite app_nil_r.
Qed.

Lemma lstrip_collapse s : lstrip (C false s) = C false (lstrip s).
Proof.
  destruct s as [|c r]; [done|]. unfold lstrip at 2. simpl.
  destruct (is_space c) eqn:Hc.
  - unfold lstrip. simpl. fold (lstrip (C true r)). fold (lstrip r).
    rewrite collapse_true_lstrip.
    destruct (lstrip_shape r) as [-> | (d & r' & -> & Hd)]; [done|].
    simpl. rewrite Hd. unfold lstrip. by apply drop_while_head.
  - unfold lstrip. simpl. by rewrite Hc.
Qed.

(** Whether the text read so far ends inside a whitespace run. *)
Local Abbreviation in_run_after b x :=
  (match last x with Some d => is_space d | None => b end).

Lemma last_cons_is_Some c x : ∃ d, last (c :: x) = Some d.
Proof. revert c. induction x as [|e x IH]; intros c; simpl; eauto. Qed.

Lemma collapse_snoc b x c :
  C b (x ++ [c]) =
    C b x ++ (if is_space c
              then (if in_run_after b x then [] else [SPACE])
              else [c]).
Proof.
  revert b. induction x as [|d x IH]; intros b.
  - simpl. destruct (is_space c); [by destruct b | done].
  - simpl C. destruct (is_space d) eqn:Hd.
    + assert (in_run_after b (d :: x) = in_run_after true x) as ->.
      { destruct x as [|e x]; [simpl; by rewrite Hd|].
        change (last (d :: e :: x)) with (last (e :: x)).
        by destruct (last_cons_is_Some e x) as [z ->]. }
      rewrite IH. by destruct b.
    + assert (in_run_after b (d :: x) = in_run_after false x) as ->.
      { destruct x as [|e x]; [simpl; by rewrite Hd|].
        change (last (d :: e :: x)) with (last (e :: x)).
        by destruct (last_cons_is_Some e x) as [z ->]. }
      by rewrite IH.
Qed.

Lemma rev_collapse s : rev (C false s) = C false (rev s).
Proof.
  induction s as [|c r IH]; [done|].
  simpl rev at 2. rewrite collapse_snoc, <- IH. simpl C.
  destruct (is_space c) eqn:Hc; [|done].
  destruct r as [|d r]; [done|].
  assert (last (rev (d :: r)) = Some d) as ->.
  { simpl. by rewrite last_snoc. }
  simpl C. destruct (is_space d) eqn:Hd.
  - simpl. by rewrite app_nil_r.
  - simpl. done.
Qed.

(** Collapsing and stripping commute. *)
Lemma strip_collapse s : strip (C false s) = C false (strip s).
Proof.
  unfold strip, rstrip.
  by rewrite lstrip_collapse, rev_collapse, lstrip_collapse, rev_collapse.
Qed.

End WhitespaceFacts.

Section SplitJoin.
Implicit Types (s t w x y cur : pystr) (c d : Z) (ws : list pystr).

Local Abbreviation C := App.collapse_ws.
Local Abbreviation J := (str_join [SPACE]).
Local Abbreviation spaceless w := (Forall (λ c, is_space c = false) w).

(** The words of [split] are not empty and hold no whitespace. *)
Lemma split_go_words s cur :
  spaceless cur → Forall (λ w, w ≠ [] ∧ spaceless w) (split_go cur s).
Proof.
  revert cur. induction s as [|c r IH]; intros cur Hcur; simpl.
  - destruct cur as [|d cur]; [constructor|]. repeat constructor.
    + simpl. by destruct (rev cur).
    + by apply Forall_rev_2.
  - destruct (is_space c) eqn:Hc.
    + destruct cur as [|d cur]; [by apply IH|].
      constructor; [|by apply IH]. split.
      * simpl. by destruct (rev cur).
      * by apply Forall_rev_2.
    + apply IH. by constructor.
Qed.

Lemma str_split_words s :
  Forall (λ w, w ≠ [] ∧ spaceless w) (str_split s).
Proof. by apply split_go_words. Qed.

Lemma str_join_nil ws : Forall (λ w, w ≠ []) ws → J ws = [] → ws = [].
Proof.
  intros H. destruct H as [|w ws Hw _]; [done|].
  destruct ws as [|u ws]; simpl; [done|].
  destruct w; [done | discriminate].
Qed.

Lemma lstrip_app_spaceless w y :
  w ≠ [] → spaceless w → lstrip (w ++ y) = w ++ y.
Proof.
  intros Hne Hw. destruct Hw as [|c w Hc _]; [done|].
  by apply drop_while_head.
Qed.

Lemma strip_collapse_split_go s cur :
  spaceless cur → strip (C false (rev cur ++ s)) = J (split_go cur s).
Proof.
  revert cur. induction s as [|c r IH]; intros cur Hcur.
  - rewrite app_nil_r.
    assert (spaceless (rev cur)) as Hrev by by apply Forall_rev_2.
    rewrite collapse_spaceless_id, spaceless_strip by done.
    simpl. by destruct cur.
  - simpl split_go. destruct (is_space c) eqn:Hc.
    + destruct cur as [|d cur].
      * simpl rev. simpl app.
        rewrite strip_collapse, strip_cons_space, <- strip_collapse by done.
        by apply (IH []).
      * apply Forall_cons in Hcur as [Hd Hcur].
        assert (spaceless (rev cur ++ [d])) as Hw.
        { apply Forall_app. split; [by apply Forall_rev_2 | by repeat constructor]. }
        assert (rev cur ++ [d] ≠ []) as Hne by by destruct (rev cur).
        simpl rev.
        rewrite collapse_spaceless by done. simpl C. rewrite Hc.
        rewrite collapse_true_lstrip. unfold strip.
        rewrite lstrip_app_spaceless by done.
        rewrite rstrip_app by done.
        rewrite rstrip_cons_space by done.
        rewrite <- lstrip_collapse. fold (strip (C false r)).
        pose proof (IH [] (Forall_nil_2 _)) as Hr. simpl in Hr. rewrite Hr.
        pose proof (split_go_words r [] (Forall_nil_2 _)) as Hwords.
        destruct (split_go [] r) as [|u us] eqn:Hs.
        -- simpl. by rewrite app_nil_r.
        -- rewrite (str_join_cons _ _ (u :: us)) by done.
           destruct (J (u :: us)) eqn:HJ; [|done].
           apply str_join_nil in HJ; [done|].
           eapply Forall_impl; [exact Hwords|]. by intros ? [? _].
    + rewrite <- (IH (c :: cur)) by by constructor.
      simpl rev. by rewrite <- app_assoc.
Qed.

(** Collapsing the whitespace runs and stripping is the same as joining
    the split words with single spaces. *)
Lemma strip_collapse_join_split s :
  strip (App.re_sub_ws_runs s) = J (str_split s).
Proof. by apply (strip_collapse_split_go s []). Qed.

End SplitJoin.

(** ** clean_text *)

Section CleanText.
Implicit Types (s t text : pystr) (c : Z).

(** The six replacements of [clean_text], one after the other. *)
Local Abbreviation plain_quotes text :=
  (Crawl.replace_char 8212 45 (Crawl.replace_char 8211 45
     (Crawl.replace_char 8221 34 (Crawl.replace_char 8220 34
        (Crawl.replace_char 8216 39 (Crawl.replace_char 8217 39 text)))))).

(** Neither a curly quote nor an en or em dash. *)
Local Abbreviation typewriter c :=
  (c ≠ 8216 ∧ c ≠ 8217 ∧ c ≠ 8220 ∧ c ≠ 8221 ∧ c ≠ 8211 ∧ c ≠ 8212)%Z.

Lemma replace_char_space old new c :
  is_space old = false → is_space new = false →
  is_space (if c =? old then new else c) = is_space c.
Proof.
  intros Hold Hnew. destruct (Z.eqb_spec c old) as [-> | _]; congruence.
Qed.

Lemma plain_quotes_typewriter text :
  Forall (λ c, typewriter c) (plain_quotes text).
Proof.
  unfold Crawl.replace_char. rewrite <- !list_fmap_compose.
  apply Forall_fmap, Forall_forall. intros c _. simpl.
  unfold compose.
  repeat (simpl; match goal with
                 | |- context [(?a =? ?b)%Z] =>
                     is_var a; destruct (Z.eqb_spec a b) as [-> | ?]
                 end);
    simpl; lia.
Qed.

Lemma plain_quotes_blank text :
  forallb is_space (plain_quotes text) = forallb is_space text.
Proof.
  unfold Crawl.replace_char. rewrite <- !list_fmap_compose.
  induction text as [|c r IH]; [done|].
  rewrite fmap_cons. simpl forallb. rewrite IH. f_equal. simpl.
  by rewrite !replace_char_space.
Qed.

Lemma plain_quotes_fixed text :
  Forall (λ c, typewriter c) text → plain_quotes text = text.
Proof.
  intros H. unfold Crawl.replace_char. rewrite <- !list_fmap_compose.
  apply fmap_fixed. eapply Forall_impl; [exact H|].
  intros c Hc. simpl.
  unfold compose.
  repeat (simpl; match goal with
                 | |- context [(?a =? ?b)%Z] =>
                     is_var a; destruct (Z.eqb_spec a b) as [-> | ?]
                 end);
    simpl; lia.
Qed.

Lemma collapse_ws_Forall (P : Z → Prop) b s :
  P SPACE → Forall P s → Forall P (App.collapse_ws b s).
Proof.
  intros Hsp H. revert b. induction H as [|c s Hc _ IH]; intros b; simpl.
  - constructor.
  - destruct (is_space c).
    + destruct b; [apply IH|]. constructor; [done | apply IH].
    + constructor; [done | apply IH].
Qed.

Lemma clean_text_run text :
  Crawl.clean_text text = strip (App.re_sub_ws_runs (plain_quotes text)).
Proof. unfold Crawl.clean_text. by destruct text. Qed.

(** [clean_text(text)] is [" ".join(text.split())] on the text with the
    typographic quotes and dashes replaced: its words are not empty and
    hold neither whitespace nor one of the replaced characters. *)
Theorem clean_text_join_split text :
  Crawl.clean_text text = str_join (py " ") (str_split (plain_quotes text))
  ∧ Forall (λ w, w ≠ [] ∧ Forall (λ c, is_space c = false ∧ typewriter c) w)
      (str_split (plain_quotes text)).
Proof.
  split.
  - rewrite clean_text_run. apply strip_collapse_join_split.
  - pose proof (str_split_words (plain_quotes text)) as Hwords.
    pose proof (plain_quotes_typewriter text) as Htw.
    apply Forall_forall. intros w Hw.
    rewrite Forall_forall in Hwords. destruct (Hwords w Hw) as [Hne Hsp].
    split; [done|]. apply Forall_forall. intros c Hc.
    rewrite Forall_forall in Hsp. split; [by apply Hsp|].
    assert (Forall (λ c, typewriter c ∨ c = SPACE)
              (strip (App.re_sub_ws_runs (plain_quotes text)))) as Hall.
    { apply strip_Forall, collapse_ws_Forall; [by right|].
      eapply Forall_impl; [exact Htw|]. intros ? ?. by left. }
    rewrite strip_collapse_join_split in Hall.
    rewrite Forall_forall in Hall.
    destruct (Hall c) as [Hc' | ->]; [|done|].
    + clear -Hw Hc. induction (str_split (plain_quotes text)) as [|u us IH].
      * by apply elem_of_nil in Hw.
      * destruct us as [|v us].
        -- apply list_elem_of_singleton in Hw as ->. done.
        -- rewrite str_join_cons by done. rewrite !elem_of_app.
           apply elem_of_cons in Hw as [-> | Hw]; [by left|].
           right. right. by apply IH.
    + specialize (Hsp SPACE Hc). discriminate.
Qed.

(** A text without the replaced characters that stripping and collapsing
    leave alone is a fixed point of [clean_text]. *)
Lemma clean_text_fixed text :
  Forall (λ c, typewriter c) text → strip text = text →
  App.re_sub_ws_runs text = text → Crawl.clean_text text = text.
Proof.
  intros Htw Hstrip Hruns.
  by rewrite clean_text_run, plain_quotes_fixed, Hruns.
Qed.

Lemma clean_text_typewriter text :
  Forall (λ c, typewriter c) (Crawl.clean_text text).
Proof.
  rewrite clean_text_run.
  apply strip_Forall, collapse_ws_Forall; [unfold SPACE; lia|].
  apply plain_quotes_typewriter.
Qed.

Lemma clean_text_stripped text :
  strip (Crawl.clean_text text) = Crawl.clean_text text.
Proof. rewrite clean_text_run. apply strip_idem. Qed.

Lemma clean_text_collapsed text :
  App.re_sub_ws_runs (Crawl.clean_text text) = Crawl.clean_text text.
Proof.
  rewrite clean_text_run. unfold App.re_sub_ws_runs.
  by rewrite <- strip_collapse, collapse_idem.
Qed.

(** Cleaning a cleaned text changes nothing. *)
Theorem clean_text_idempotent text :
  Crawl.clean_text (Crawl.clean_text text) = Crawl.clean_text text.
Proof.
  apply clean_text_fixed.
  - apply clean_text_typewriter.
  - apply clean_text_stripped.
  - apply clean_text_collapsed.
Qed.

Lemma collapse_ws_nil s : App.collapse_ws false s = [] → s = [].
Proof. destruct s as [|c r]; [done|]. simpl. by destruct (is_space c). Qed.

Lemma strip_nil_iff s : strip s = [] ↔ forallb is_space s = true.
Proof.
  split; [|apply strip_blank].
  unfold strip. rewrite rstrip_nil_iff. intros H.
  destruct (lstrip_shape s) as [Hs | (c & r & Hs & Hc)].
  - by apply drop_while_nil_iff.
  - rewrite Hs in H. simpl in H. rewrite Hc in H. discriminate.
Qed.

(** The result is the empty string exactly for a text that is empty or
    holds only whitespace. *)
Theorem clean_text_empty_iff text :
  Crawl.clean_text text = [] ↔ forallb is_space text = true.
Proof.
  rewrite clean_text_run. unfold App.re_sub_ws_runs.
  rewrite strip_collapse, <- plain_quotes_blank, <- strip_nil_iff.
  split; [apply collapse_ws_nil | by intros ->].
Qed.

End CleanText.

Example clean_text_run_example :
  Crawl.clean_text
    ([9; 32] ++ py "The  chef" ++ [8217] ++ py "s  table " ++ [8212; 10]
     ++ py " open   daily" ++ [160])
  = py "The chef's table - open daily".
Proof. vm_compute. reflexivity. Qed.

(** ** What the tokeniser is given *)

Section TokeniserInput.
Context (U : unicode_tables) (K : App.nltk).
Implicit Types (raw s : pystr).

(** The tokeniser receives the lowercased text with every run of
    characters other than [a-z] turned into one space and none at the ends:
    the single-space join of its maximal runs of lowercase letters. *)
Theorem preprocess_tokenizes_letter_words raw :
  let words := str_split (App.re_sub_non_letter (str_lower U raw)) in
  App.preprocess U K raw =
    str_join [SPACE]
      (App.Spec.lemmatize_twice K <$>
         filter (λ t, (t ∉ App.stop_words K) ∧ (2 < length t)%nat)
                (App.word_tokenize K (str_join [SPACE] words)))
  ∧ Forall (λ w, w ≠ [] ∧ forallb is_az w = true) words.
Proof.
  intros words. split.
  - rewrite preprocess_tokens. by rewrite strip_collapse_join_split.
  - pose proof (str_split_words (App.re_sub_non_letter (str_lower U raw)))
      as Hwords.
    pose proof (cleaned_text_plain (str_lower U raw)) as Hplain.
    rewrite strip_collapse_join_split in Hplain. fold words in Hplain, Hwords.
    apply Forall_forall. intros w Hw.
    rewrite Forall_forall in Hwords. destruct (Hwords w Hw) as [Hne Hsp].
    split; [done|]. apply forallb_Forall_true, Forall_forall. intros c Hc.
    rewrite Forall_forall in Hsp, Hplain.
    destruct (Hplain c) as [Haz | ->]; [|done|].
    + clear -Hw Hc. induction words as [|u us IH].
      * by apply elem_of_nil in Hw.
      * destruct us as [|v us].
        -- apply list_elem_of_singleton in Hw as ->. done.
        -- rewrite str_join_cons by done. rewrite !elem_of_app.
           apply elem_of_cons in Hw as [-> | Hw]; [by left|].
           right. right. by apply IH.
    + specialize (Hsp SPACE Hc). discriminate.
Qed.

(** ASCII text without a letter is normalised like the empty string,
    although it need not be blank. *)
Theorem preprocess_letterless s :
  forallb is_ascii s = true →
  forallb (λ c, negb (is_az c || is_AZ c)) s = true →
  App.preprocess U K s = App.preprocess U K [].
Proof.
  intros Hascii Hnone. rewrite !preprocess_tokens.
  assert (strip (App.re_sub_ws_runs (App.re_sub_non_letter (str_lower U s)))
          = []) as ->; [|done].
  unfold App.re_sub_ws_runs. rewrite strip_collapse.
  rewrite strip_blank; [done|].
  unfold str_lower. rewrite Hascii. unfold App.re_sub_non_letter.
  rewrite <- list_fmap_compose.
  apply forallb_Forall_true, Forall_fmap, Forall_forall. intros c Hc.
  rewrite forallb_forall in Hnone.
  specialize (Hnone c (proj1 (list_elem_of_In _ _) Hc)).
  apply negb_true_iff, orb_false_iff in Hnone as [Haz HAZ].
  simpl. unfold ascii_lower. rewrite HAZ, Haz. simpl.
  by destruct (is_space c) eqn:Hsp.
Qed.

End TokeniserInput.

Lemma preprocess_letterless_witness :
  App.preprocess Sample.ascii_tables Sample.nltk_fragment (py "12 345 !?")
  = App.preprocess Sample.ascii_tables Sample.nltk_fragment [].
Proof.
  apply preprocess_letterless; vm_compute; reflexivity.
Defined.

(** ** The handler: what it leaves alone and how it fails *)

Section HandlerFrame.
Context (U : unicode_tables) (K : App.nltk) (A : App.artefacts).
Context (format_percent : Q → pystr).
Implicit Types (s : App.app_state) (text : pystr).

Local Abbreviation shown s evs :=
  ({| App.input_text := App.input_text s; App.trace := App.trace s ++ evs |}).

(** [s'] has the session text of [s] and its trace, with more calls
    after it. *)
Local Abbreviation grows s s' :=
  (App.input_text s' = App.input_text s
   ∧ ∃ evs, App.trace s' = App.trace s ++ evs).

Lemma grows_refl s : grows s s.
Proof. split; [done|]. exists []. by rewrite app_nil_r. Qed.

Lemma grows_shown s s' evs : grows (shown s evs) s' → grows s s'.
Proof.
  intros [Hin [evs' Htr]]. simpl in *. split; [done|].
  exists (evs ++ evs'). by rewrite Htr, app_assoc.
Qed.

Lemma run_raise {S B C} (e : py_exn) (k : B → M S C) (st : S) :
  (raise e ≫= k) st = (st, inl e).
Proof. done. Qed.

Lemma progress_bars_grow (l : list (pystr * Q)) s :
  grows s (for_each l (λ '(cls, prob),
                         App.st_progress prob
                           (cls ++ py ": " ++ format_percent prob)) s).1.
Proof.
  revert s. induction l as [|[cls prob] l IH]; intros s.
  - apply grows_refl.
  - cbn [for_each]. unfold bind, App.st_progress.
    destruct (Qle_bool 0 prob && Qle_bool prob 1).
    + unfold App.emit, modify.
      eapply grows_shown. apply IH.
    + apply grows_refl.
Qed.

Local Ltac grown :=
  unfold App.emit, modify; cbn [fst App.input_text App.trace];
  split; [reflexivity | eexists; rewrite <- ?app_assoc; reflexivity].

(** Whatever the text and whatever the model returns, a press of the
    Classify button leaves the session text as it was and only adds calls
    to the trace, also when the run ends in an exception. *)
Theorem on_classify_click_frame text s :
  let s' := (App.on_classify_click U K A format_percent text s).1 in
  App.input_text s' = App.input_text s
  ∧ ∃ evs, App.trace s' = App.trace s ++ evs.
Proof.
  unfold App.on_classify_click.
  destruct (truthy (strip text)); [|grown].
  unfold App.classify_text. rewrite !run_emit.
  destruct (App.model_predict A _) as [|prediction others].
  { change (index0 []) with (@raise App.app_state pystr IndexError).
    rewrite run_raise. grown. }
  rewrite index0_cons, run_ret.
  destruct (App.model_predict_proba A) as [predict_proba|].
  2:{ rewrite run_emit. grown. }
  rewrite run_emit.
  destruct (predict_proba _) as [|proba more].
  { change (index0 []) with (@raise App.app_state (list Q) IndexError).
    rewrite run_raise. grown. }
  rewrite index0_cons, run_ret.
  destruct proba as [|p0 ps].
  { change (App.py_max []) with (@raise App.app_state Q ValueError).
    rewrite run_raise. grown. }
  rewrite py_max_cons, run_ret, !run_emit.
  do 7 eapply grows_shown. apply progress_bars_grow.
Qed.

(** Nothing is displayed when the model returns no prediction, no row of
    probabilities, or an empty row: the run ends in [IndexError] or, for
    the maximum of an empty row, in [ValueError], after the calls to the
    vectoriser and the model only. *)
Theorem classify_text_failures text s :
  let processed := App.preprocess U K text in
  let vec := App.tfidf_transform A [processed] in
  (App.model_predict A vec = [] →
   App.classify_text U K A format_percent text s =
     (shown s [App.TfidfTransform [processed]; App.ModelPredict vec],
      inl IndexError))
  ∧ (∀ prediction others predict_proba,
       App.model_predict A vec = prediction :: others →
       App.model_predict_proba A = Some predict_proba →
       (predict_proba vec = [] →
        App.classify_text U K A format_percent text s =
          (shown s [App.TfidfTransform [processed]; App.ModelPredict vec;
                    App.ModelPredictProba vec],
           inl IndexError))
       ∧ (∀ more, predict_proba vec = [] :: more →
          App.classify_text U K A format_percent text s =
            (shown s [App.TfidfTransform [processed]; App.ModelPredict vec;
                      App.ModelPredictProba vec],
             inl ValueError))).
Proof.
  intros processed vec. split.
  - intros Hnone. unfold App.classify_text. fold processed. fold vec.
    rewrite !run_emit, Hnone.
    change (index0 []) with (@raise App.app_state pystr IndexError).
    rewrite run_raise. cbn [App.input_text App.trace].
    by rewrite <- !app_assoc.
  - intros prediction others predict_proba Hpred Hpp. split.
    + intros Hrows. unfold App.classify_text. fold processed. fold vec.
      rewrite Hpp, !run_emit, Hpred, index0_cons, run_ret, run_emit, Hrows.
      change (index0 []) with (@raise App.app_state (list Q) IndexError).
      rewrite run_raise. cbn [App.input_text App.trace].
      by rewrite <- !app_assoc.
    + intros more Hrows. unfold App.classify_text. fold processed. fold vec.
      rewrite Hpp, !run_emit, Hpred, index0_cons, run_ret, run_emit, Hrows.
      rewrite index0_cons, run_ret.
      change (App.py_max []) with (@raise App.app_state Q ValueError).
      rewrite run_raise. cbn [App.input_text App.trace].
      by rewrite <- !app_assoc.
Qed.

End HandlerFrame.

Lemma classify_text_failures_witness :
  (App.classify_text Sample.ascii_tables Sample.nltk_fragment
     SampleModels.silent_model Sample.percent (py "Red velvet cake")
     Sample.fresh_page).2 = inl IndexError
  ∧ (App.classify_text Sample.ascii_tables Sample.nltk_fragment
       SampleModels.no_rows_model Sample.percent (py "Red velvet cake")
       Sample.fresh_page).2 = inl IndexError
  ∧ (App.classify_text Sample.ascii_tables Sample.nltk_fragment
       SampleModels.empty_row_model Sample.percent (py "Red velvet cake")
       Sample.fresh_page).2 = inl ValueError.
Proof.
  split; [|split].
  - rewrite (proj1 (classify_text_failures Sample.ascii_tables
                      Sample.nltk_fragment SampleModels.silent_model
                      Sample.percent (py "Red velvet cake")
                      Sample.fresh_page)); reflexivity.
  - destruct (proj2 (classify_text_failures Sample.ascii_tables
                       Sample.nltk_fragment SampleModels.no_rows_model
                       Sample.percent (py "Red velvet cake")
                       Sample.fresh_page)
                (py "food") [] (λ _, []) eq_refl eq_refl) as [H _].
    rewrite H; reflexivity.
  - destruct (proj2 (classify_text_failures Sample.ascii_tables
                       Sample.nltk_fragment SampleModels.empty_row_model
                       Sample.percent (py "Red velvet cake")
                       Sample.fresh_page)
                (py "food") [] _ eq_refl eq_refl) as [_ H].
    rewrite (H []); reflexivity.
Defined.

(** ** The order of the bars *)

Section BarOrder.
Context {A : Type} (key : A → Q).
Implicit Types (l acc : list A) (x y : A) (k : Q).

Local Abbreviation tied k := (λ x, Qeq_bool (key x) k).
Local Abbreviation ascending :=
  (StronglySorted (λ a b, (key a <= key b)%Q)).

Lemma filter_none (f : A → bool) l :
  Forall (λ z, f z = false) l → List.filter f l = [].
Proof.
  induction 1 as [|z l Hz _ IH]; simpl; [done|]. by rewrite Hz.
Qed.

(** Inserting into a sorted list puts the item after the items that tie
    with it. *)
Lemma insert_by_ties k x l :
  ascending l →
  List.filter (tied k) (App.insert_by key x l) =
    List.filter (tied k) l ++ (if tied k x then [x] else []).
Proof.
  induction 1 as [|y l Hs IH Hall]; simpl.
  - by destruct (Qeq_bool (key x) k).
  - destruct (App.float_lt (key x) (key y)) eqn:Hlt.
    + simpl. destruct (Qeq_bool (key x) k) eqn:Hx;
        [|by rewrite app_nil_r].
      apply float_lt_true in Hlt. apply Qeq_bool_iff in Hx.
      assert (Hnone : List.filter (tied k) (y :: l) = []).
      { apply filter_none. apply Forall_forall. intros z Hz.
        apply not_true_iff_false. intros Hzk%Qeq_bool_iff.
        assert (key y <= key z)%Q as Hyz.
        { apply elem_of_cons in Hz as [-> | Hz]; [apply Qle_refl|].
          rewrite Forall_forall in Hall. by apply Hall. }
        apply (Qlt_not_eq (key x) (key z)).
        - by eapply Qlt_le_trans.
        - by rewrite Hx, Hzk. }
      simpl in Hnone. by rewrite Hnone.
    + simpl. rewrite IH. by destruct (Qeq_bool (key y) k).
Qed.

Lemma stable_sort_acc_ties k acc l :
  ascending acc →
  List.filter (tied k) (foldl (λ acc x, App.insert_by key x acc) acc l) =
    List.filter (tied k) acc ++ List.filter (tied k) l.
Proof.
  revert acc. induction l as [|x l IH]; intros acc Hacc; simpl.
  - by rewrite app_nil_r.
  - rewrite IH by by apply insert_by_sorted.
    rewrite insert_by_ties by done. rewrite <- app_assoc.
    by destruct (Qeq_bool (key x) k).
Qed.

(** [sorted(..., reverse=True)] is stable: the items whose keys are equal
    come out in the order they went in. *)
Theorem sorted_reverse_keeps_ties k l :
  List.filter (tied k) (App.sorted_reverse key l) = List.filter (tied k) l.
Proof.
  unfold App.sorted_reverse, App.stable_sort.
  rewrite List.filter_rev, stable_sort_acc_ties by constructor.
  simpl. by rewrite List.filter_rev, rev_involutive.
Qed.

End BarOrder.

(** The confidence shown is the probability of the first bar. *)
Theorem confidence_is_top_bar (classes : list pystr) (proba : list Q)
    (s : App.app_state) :
  proba ≠ [] → length classes = length proba →
  ∃ confidence cls p rest,
    App.py_max proba s = (s, inr confidence)
    ∧ App.sorted_reverse snd (zip classes proba) = (cls, p) :: rest
    ∧ (p == confidence)%Q.
Proof.
  intros Hne Hlen. destruct proba as [|p0 ps]; [done|].
  pose proof (foldl_max_spec p0 ps) as (Hin & Hle & Hall).
  set (confidence :=
         foldl (λ m item, if App.float_lt m item then item else m) p0 ps)
    in *.
  pose proof (sorted_reverse_perm snd (zip classes (p0 :: ps))) as Hperm.
  pose proof (sorted_reverse_descending snd (zip classes (p0 :: ps)))
    as Hsorted.
  assert (Hprobs : (App.sorted_reverse snd (zip classes (p0 :: ps))).*2
                   ≡ₚ p0 :: ps).
  { rewrite Hperm. by rewrite snd_zip by lia. }
  destruct (App.sorted_reverse snd (zip classes (p0 :: ps)))
    as [|[cls p] rest] eqn:Hdist.
  { apply Permutation_nil_l in Hprobs. discriminate. }
  exists confidence, cls, p, rest. split; [done|]. split; [done|].
  apply Qle_antisym.
  - assert (p ∈ p0 :: ps) as Hp by (rewrite <- Hprobs; left).
    apply elem_of_cons in Hp as [-> | Hp]; [done|].
    rewrite Forall_forall in Hall. by apply Hall.
  - rewrite <- Hprobs in Hin. simpl in Hin.
    apply elem_of_cons in Hin as [<- | Hin]; [apply Qle_refl|].
    apply list_elem_of_fmap in Hin as ([cls' p'] & -> & Hin).
    apply StronglySorted_inv in Hsorted as [_ Hhead].
    rewrite Forall_forall in Hhead. by apply (Hhead (cls', p')).
Qed.

Lemma confidence_is_top_bar_witness :
  ∃ confidence cls p rest,
    App.py_max [1 # 4; 1 # 2; 1 # 4]%Q Sample.fresh_page
    = (Sample.fresh_page, inr confidence)
    ∧ App.sorted_reverse snd
        (zip [py "cake"; py "food"; py "wines"] [1 # 4; 1 # 2; 1 # 4]%Q)
      = (cls, p) :: rest
    ∧ (p == confidence)%Q.
Proof.
  apply (confidence_is_top_bar [py "cake"; py "food"; py "wines"]
           [1 # 4; 1 # 2; 1 # 4]%Q Sample.fresh_page).
  - discriminate.
  - reflexivity.
Defined.

(** ** More on the removal of duplicates *)

Section DedupMore.
Context (U : unicode_tables).
Implicit Types (l : list Scraper.row) (r : Scraper.row).

Local Abbreviation key := (Scraper.desc_key U).
Local Abbreviation unique_data := (Scraper.unique_data U).

Lemma unique_data_fixed l :
  NoDup (key <$> l) → Forall (λ r, (5 < length (key r))%nat) l →
  unique_data l = l.
Proof.
  induction l as [|x l IH] using rev_ind; [done|].
  rewrite fmap_app, NoDup_app, Forall_app, Forall_singleton.
  intros (Hnd & Hnew & _) [Hlong Hx].
  rewrite unique_data_snoc, IH by done.
  rewrite (proj2 (fresh_spec U l x)); [done|].
  split; [done|]. intros r' Hr' Hk.
  apply (Hnew (key r')); [by apply list_elem_of_fmap_2|].
  rewrite Hk. simpl. left.
Qed.

(** Removing duplicates a second time changes nothing. *)
Theorem unique_data_idempotent l :
  unique_data (unique_data l) = unique_data l.
Proof.
  apply unique_data_fixed; [apply unique_data_NoDup | apply unique_data_long].
Qed.

(** Rows that come first keep their place when more rows follow: the
    result for [l1 ++ l2] starts with the result for [l1], and a row of
    [l2] enters only if no row of [l1] has its key. *)
Theorem unique_data_app l1 l2 :
  ∃ more,
    unique_data (l1 ++ l2) = unique_data l1 ++ more
    ∧ Forall (λ r, r ∈ l2 ∧ ∀ r', r' ∈ l1 → key r' ≠ key r) more.
Proof.
  induction l2 as [|x l2 (more & Heq & Hmore)] using rev_ind.
  - exists []. by rewrite !app_nil_r.
  - rewrite app_assoc, unique_data_snoc, Heq, <- app_assoc.
    eexists. split; [done|]. apply Forall_app. split.
    + eapply Forall_impl; [exact Hmore|]. intros r [Hr Hfirst].
      split; [|done]. apply elem_of_app. by left.
    + destruct (_ && _) eqn:Hfresh; [|constructor].
      apply fresh_spec in Hfresh as [_ Hnone].
      repeat constructor.
      * apply elem_of_app. right. left.
      * intros r' Hr'. apply Hnone, elem_of_app. by left.
Qed.

End DedupMore.

Example unique_data_app_example :
  Scraper.unique_data Sample.ascii_tables
    ([Sample.row_of (py "  Pumpkin soup with celery ")]
     ++ [Crawl.row_with (py "about") (py "restaurant_description")
           (py "pumpkin soup with celery");
         Sample.row_of (py "Goat Curry")])
  = [Sample.row_of (py "  Pumpkin soup with celery ");
     Sample.row_of (py "Goat Curry")].
Proof. vm_compute. reflexivity. Qed.

(** ** The main block as a whole *)

Section MainBlockFacts.
Context (U : unicode_tables).

Local Abbreviation primary := (py "Omoding.csv").
Local Abbreviation fallback := (py "Omoding_new.csv").
Local Abbreviation complete :=
  (Scraper.PrintLine (py "Web scraping complete!")).
Local Abbreviation fieldnames :=
  [py "source_page"; py "category"; py "item_name"; py "description";
   py "price"].

(** The run prints its last line exactly when it does not raise.  When it
    ends well, one of the two paths holds the header and the rows without
    duplicates and no other file has changed; when it raises, no file has
    changed, and the exception is the one of the primary path (any but
    [PermissionError]) or, after a [PermissionError] there, the one of the
    fallback path. *)
Theorem main_block_outcome (all_data : list Scraper.row)
    (w : Scraper.world) :
  let csv := {| Scraper.header := fieldnames;
                Scraper.records := Scraper.unique_data U all_data |} in
  ∃ w' res evs,
    Crawl.main_block U all_data w = (w', res)
    ∧ Scraper.unwritable w' = Scraper.unwritable w
    ∧ Scraper.io_log w' = Scraper.io_log w ++ evs
    ∧ (res = inr () ↔ last evs = Some complete)
    ∧ match res with
      | inr _ =>
          (Scraper.unwritable w !! primary = None
           ∧ Scraper.files w' = <[primary := csv]> (Scraper.files w))
          ∨ (Scraper.unwritable w !! primary = Some PermissionError
             ∧ Scraper.unwritable w !! fallback = None
             ∧ Scraper.files w' = <[fallback := csv]> (Scraper.files w))
      | inl e =>
          Scraper.files w' = Scraper.files w
          ∧ ((Scraper.unwritable w !! primary = Some e
              ∧ e ≠ PermissionError)
             ∨ (Scraper.unwritable w !! primary = Some PermissionError
                ∧ Scraper.unwritable w !! fallback = Some e))
      end.
Proof.
  intros csv. unfold Crawl.main_block.
  unfold mbind, M_bind, bind, try_except.
  unfold Scraper.log at 1 2 3 4, modify at 1 2 3 4.
  rewrite save_to_csv_run. cbn [Scraper.unwritable Scraper.files Scraper.io_log].
  destruct (Scraper.unwritable w !! primary) as [e|] eqn:Hprimary.
  - destruct (decide (e = PermissionError)) as [-> | Hother].
    + unfold Scraper.log at 1, modify at 1.
      rewrite save_to_csv_run.
      cbn [Scraper.unwritable Scraper.files Scraper.io_log].
      destruct (Scraper.unwritable w !! fallback) as [e'|] eqn:Hfallback.
      * eexists _, _, _. split; [done|]. split; [done|].
        cbn [Scraper.io_log]. split; [by rewrite <- !app_assoc|].
        split; [split; discriminate|]. split; [done|]. by right.
      * unfold Scraper.log, modify.
        eexists _, _, _. split; [done|]. split; [done|].
        cbn [Scraper.io_log Scraper.files].
        split; [by rewrite <- !app_assoc|].
        split; [done|]. right. done.
    + eexists _, _, _. split; [done|]. split; [done|].
      cbn [Scraper.io_log]. split; [by rewrite <- !app_assoc|].
      split; [split; discriminate|]. split; [done|]. by left.
  - unfold Scraper.log, modify.
    eexists _, _, _. split; [done|]. split; [done|].
    cbn [Scraper.io_log Scraper.files].
    split; [by rewrite <- !app_assoc|].
    split; [done|]. left. done.
Qed.

End MainBlockFacts.

Example main_block_run :
  Crawl.main_block Sample.ascii_tables
    [Sample.row_of (py "Pumpkin Soup"); Sample.row_of (py "pumpkin soup")]
    SampleSite.empty_disk
  = ({| Scraper.files :=
          {[ py "Omoding.csv" :=
               {| Scraper.header :=
                    [py "source_page"; py "category"; py "item_name";
                     py "description"; py "price"];
                  Scraper.records := [Sample.row_of (py "Pumpkin Soup")] |} ]};
        Scraper.unwritable := ∅;
        Scraper.io_log :=
          [Scraper.PrintLine (py "============================================================");
           Scraper.PrintLine (py "The Hickory Kampala - Web Scraping Script");
           Scraper.PrintLine (py "Author: Omoding Isaac (B31331)");
           Scraper.PrintLine (py "============================================================");
           Scraper.OpenForWriting (py "Omoding.csv");
           Scraper.PrintLine (py "Saved 1 records to Omoding.csv");
           Scraper.PrintLine (10 :: py "Total unique records: 1");
           Scraper.PrintLine (py "Web scraping complete!")] |},
     inr ()).
Proof. vm_compute. reflexivity. Qed.

(** ** More on the noise filter *)

Section NoiseMore.
Context (U : unicode_tables).
Implicit Types (s t w text lit : pystr) (c p : Z) (r : Scraper.regex).

(** Leading and trailing whitespace makes no difference to the filter. *)
Theorem is_noise_strip text :
  Scraper.is_noise U (strip text) = Scraper.is_noise U text.
Proof. unfold Scraper.is_noise. by rewrite strip_idem. Qed.

Lemma match_lits lit s :
  Scraper.match_atoms U (Scraper.Lit <$> lit) s =
    match Scraper.word_matches lit s with
    | Some rest => [rest]
    | None => []
    end.
Proof.
  revert s. induction lit as [|p lit IH]; intros s; [done|].
  rewrite fmap_cons. simpl.
  destruct s as [|c s]; [done|].
  destruct (Scraper.lit_matches p c); [|done].
  rewrite bind_cons. change ([] ≫= Scraper.match_atoms U (Scraper.Lit <$> lit))
    with (@nil pystr). rewrite app_nil_r. apply IH.
Qed.

Lemma lit_matches_lower p c :
  ascii_lower c = ascii_lower p → Scraper.lit_matches p c = true.
Proof.
  intros H. unfold Scraper.lit_matches. by rewrite H, Z.eqb_refl.
Qed.

Lemma word_matches_lower lit w rest :
  ascii_lower <$> w = ascii_lower <$> lit →
  Scraper.word_matches lit (w ++ rest) = Some rest.
Proof.
  revert w. induction lit as [|p lit IH]; intros w Hw.
  - apply fmap_nil_inv in Hw as ->. done.
  - destruct w as [|c w]; [done|].
    rewrite !fmap_cons in Hw. injection Hw as Hc Hw.
    simpl. rewrite lit_matches_lower by done. by apply IH.
Qed.

Lemma word_matches_length lit s rest :
  Scraper.word_matches lit s = Some rest →
  length s = (length lit + length rest)%nat.
Proof.
  revert s. induction lit as [|p lit IH]; intros s; simpl.
  - by intros [= ->].
  - destruct s as [|c s]; [done|].
    destruct (Scraper.lit_matches p c); [|done].
    intros H%IH. simpl. lia.
Qed.

Lemma suffixes_head s : In s (Scraper.suffixes s).
Proof. destruct s; simpl; by left. Qed.

Lemma suffixes_app a s : In s (Scraper.suffixes (a ++ s)).
Proof.
  induction a as [|c a IH]; [apply suffixes_head|]. simpl. by right.
Qed.

Lemma re_search_literal r lit a w b :
  Scraper.eol r = false → Scraper.body r = Scraper.Lit <$> lit →
  (Scraper.bol r = true → a = []) →
  ascii_lower <$> w = ascii_lower <$> lit →
  Scraper.re_search U r (a ++ w ++ b) = true.
Proof.
  intros Heol Hbody Hbol Hw. unfold Scraper.re_search.
  rewrite Heol, Hbody. apply existsb_exists. exists (w ++ b). split.
  - destruct (Scraper.bol r); [|apply suffixes_app].
    rewrite Hbol by done. by left.
  - by rewrite match_lits, word_matches_lower.
Qed.

Lemma is_noise_of_match text r :
  r ∈ Scraper.NOISE_PATTERNS → Scraper.re_search U r (strip text) = true →
  Scraper.is_noise U text = true.
Proof.
  intros Hr Hm. unfold Scraper.is_noise.
  destruct (_ <? _)%nat; [done|].
  assert (existsb (λ r, Scraper.re_search U r (strip text))
            Scraper.NOISE_PATTERNS = true) as ->; [|done].
  apply existsb_exists. exists r. split; [by apply list_elem_of_In | done].
Qed.

(** A text that, once stripped, begins with the literal of one of the
    [^literal] patterns, in any mix of upper and lower case, is noise. *)
Theorem is_noise_prefix (lit : string) text :
  Scraper.re_prefix lit ∈ Scraper.NOISE_PATTERNS →
  starts_with (ascii_lower <$> py lit) (ascii_lower <$> strip text) = true →
  Scraper.is_noise U text = true.
Proof.
  intros Hr [b Hb]%starts_with_spec.
  apply fmap_app_inv in Hb as (w & rest & Hw & _ & Hstrip).
  apply (is_noise_of_match _ _ Hr). rewrite Hstrip.
  by apply (re_search_literal _ (py lit) [] w rest).
Qed.

Lemma is_space_ascii_lower c : is_space (ascii_lower c) = is_space c.
Proof.
  unfold ascii_lower. destruct (is_AZ c) eqn:HAZ; [|done].
  apply andb_true_iff in HAZ as [H1%Z.leb_le H2%Z.leb_le].
  unfold is_space.
  repeat match goal with
    | |- context [(?a <=? ?b)%Z] =>
        first [ rewrite (proj2 (Z.leb_le a b)) by lia
              | rewrite (proj2 (Z.leb_gt a b)) by lia ]
    | |- context [(?a =? ?b)%Z] =>
        rewrite (proj2 (Z.eqb_neq a b)) by lia
    end.
  done.
Qed.

(** Stripping keeps every occurrence of a word whose first and last
    characters are no whitespace. *)
Lemma strip_keeps_word a w b c d :
  head w = Some c → last w = Some d →
  is_space c = false → is_space d = false →
  ∃ a' b', strip (a ++ w ++ b) = a' ++ w ++ b'.
Proof.
  intros Hhead Hlast Hc Hd.
  destruct w as [|c' w']; [done|]. injection Hhead as ->.
  unfold strip. unfold lstrip.
  destruct (drop_while_stops is_space a c (w' ++ b) Hc) as [a' Ha].
  change (a ++ (c :: w') ++ b) with (a ++ c :: w' ++ b). rewrite Ha.
  destruct (proj1 (last_Some (c :: w') d) Hlast) as [w'' Hw].
  change (a' ++ c :: w' ++ b) with (a' ++ (c :: w') ++ b).
  rewrite Hw. exists a', (rstrip b).
  rewrite !app_assoc. rewrite rstrip_app by done. done.
Qed.

(** A text that contains the literal of one of the unanchored patterns
    (the copyright sign; "designed by fortitude"), in any mix of upper and
    lower case, is noise, whatever surrounds it. *)
Theorem is_noise_literal_anywhere r lit text a w b c d :
  r ∈ Scraper.NOISE_PATTERNS →
  Scraper.bol r = false → Scraper.eol r = false →
  Scraper.body r = Scraper.Lit <$> lit →
  head lit = Some c → last lit = Some d →
  is_space c = false → is_space d = false →
  text = a ++ w ++ b → ascii_lower <$> w = ascii_lower <$> lit →
  Scraper.is_noise U text = true.
Proof.
  intros Hr Hbol Heol Hbody Hhead Hlast Hc Hd -> Hw.
  assert (∃ c', head w = Some c' ∧ is_space c' = false) as (c' & Hc' & Hsc).
  { destruct lit as [|p lit]; [done|]. injection Hhead as ->.
    destruct w as [|c' w]; [done|]. rewrite !fmap_cons in Hw.
    injection Hw as Hcc _. exists c'. split; [done|].
    by rewrite <- is_space_ascii_lower, Hcc, is_space_ascii_lower. }
  assert (∃ d', last w = Some d' ∧ is_space d' = false) as (d' & Hd' & Hsd).
  { destruct (proj1 (last_Some lit d) Hlast) as [lit' ->].
    rewrite fmap_app in Hw.
    apply fmap_app_inv in Hw as (w' & wd & _ & Hwd & ->).
    destruct wd as [|d' [|]]; try done. injection Hwd as Hdd.
    exists d'. split; [apply last_snoc|].
    by rewrite <- is_space_ascii_lower, <- Hdd, is_space_ascii_lower. }
  destruct (strip_keeps_word a w b c' d' Hc' Hd' Hsc Hsd) as (a' & b' & Hs).
  apply (is_noise_of_match _ _ Hr). rewrite Hs.
  apply (re_search_literal _ lit); [done | done | | done].
  intros ?. congruence.
Qed.

End NoiseMore.

Local Ltac find_pattern :=
  repeat first [apply list_elem_of_here | apply list_elem_of_further].

Lemma is_noise_prefix_witness :
  Scraper.is_noise Sample.ascii_tables
    (py "  Opening Hours: daily from 8am to 11pm") = true.
Proof.
  apply (is_noise_prefix Sample.ascii_tables "opening hours").
  - unfold Scraper.NOISE_PATTERNS. find_pattern.
  - vm_compute. reflexivity.
Defined.

Lemma is_noise_literal_anywhere_witness :
  Scraper.is_noise Sample.ascii_tables
    (py "The restaurant is designed by Fortitude Solutions") = true
  ∧ Scraper.is_noise Sample.ascii_tables
      (py "Hickory " ++ [169] ++ py " 2026 all rights reserved") = true.
Proof.
  split.
  - apply (is_noise_literal_anywhere Sample.ascii_tables
             (Scraper.re_anywhere "designed by fortitude")
             (py "designed by fortitude") _
             (py "The restaurant is ") (py "designed by Fortitude")
             (py " Solutions") 100 101).
    + unfold Scraper.NOISE_PATTERNS. find_pattern.
    + reflexivity.
    + reflexivity.
    + reflexivity.
    + reflexivity.
    + reflexivity.
    + reflexivity.
    + reflexivity.
    + reflexivity.
    + vm_compute. reflexivity.
  - apply (is_noise_literal_anywhere Sample.ascii_tables
             {| Scraper.bol := false; Scraper.body := [Scraper.Lit 169];
                Scraper.eol := false |}
             [169] _ (py "Hickory ") [169]
             (py " 2026 all rights reserved") 169 169).
    + unfold Scraper.NOISE_PATTERNS. find_pattern.
    + reflexivity.
    + reflexivity.
    + reflexivity.
    + reflexivity.
    + reflexivity.
    + reflexivity.
    + reflexivity.
    + reflexivity.
    + reflexivity.
Defined.

Section ExactPatterns.
Context (U : unicode_tables).

Lemma length_py (lit : string) : length (py lit) = String.length lit.
Proof.
  unfold py. rewrite length_fmap.
  induction lit as [|a lit IH]; simpl; [done | by rewrite IH].
Qed.

(** A [^literal$] pattern matches only a text as long as its literal, or
    one character longer. *)
Lemma re_search_exact_length (lit : string) (t : pystr) :
  Scraper.re_search U (Scraper.re_exact lit) t = true →
  (length t ≤ String.length lit + 1)%nat.
Proof.
  unfold Scraper.re_search, Scraper.re_exact, Scraper.lits. simpl.
  rewrite match_lits.
  destruct (Scraper.word_matches (py lit) t) as [rest|] eqn:Hw; [|done].
  apply word_matches_length in Hw. rewrite length_py in Hw.
  simpl. rewrite !orb_false_r. intros Hend.
  destruct rest as [|c [|d rest]]; simpl in *; [lia | lia | done].
Qed.

(** Where the length rule does not apply, the only patterns ending in [$]
    that can match are [^exquisite recipes$] and [^\d+$]: the twenty other
    exact patterns never decide the result. *)
Theorem end_anchored_matches (text : pystr) (r : Scraper.regex) :
  (15 ≤ length (strip text))%nat →
  r ∈ Scraper.NOISE_PATTERNS → Scraper.eol r = true →
  Scraper.re_search U r (strip text) = true →
  r = Scraper.re_exact "exquisite recipes"
  ∨ r = {| Scraper.bol := true; Scraper.body := [Scraper.Digits];
           Scraper.eol := true |}.
Proof.
  intros Hlen Hr Heol Hm. unfold Scraper.NOISE_PATTERNS in Hr.
  repeat (apply elem_of_cons in Hr as [-> | Hr]);
    try (by apply elem_of_nil in Hr);
    try (simpl in Heol; discriminate Heol);
    try (by left); try (by right);
    apply re_search_exact_length in Hm; simpl in Hm; lia.
Qed.

End ExactPatterns.

Lemma end_anchored_matches_witness :
  Scraper.re_exact "exquisite recipes"
  = Scraper.re_exact "exquisite recipes"
  ∨ Scraper.re_exact "exquisite recipes"
    = {| Scraper.bol := true; Scraper.body := [Scraper.Digits];
         Scraper.eol := true |}.
Proof.
  apply (end_anchored_matches Sample.ascii_tables (py " Exquisite Recipes ")).
  - vm_compute. lia.
  - unfold Scraper.NOISE_PATTERNS. find_pattern.
  - reflexivity.
  - vm_compute. reflexivity.
Defined.

(** ** Scraping the pages *)

Section ScrapingFacts.
Context (U : unicode_tables) (unicode_capitalize : pystr → pystr).
Implicit Types (page : option Crawl.soup) (r : Scraper.row)
  (elem : Crawl.tag) (text : pystr).

Local Abbreviation nav_names := [py "nav"; py "footer"; py "header"].
Local Abbreviation skip_marks :=
  [py "nav"; py "footer"; py "menu-item"; py "widget"].

(** What every scraped row has. *)
Local Abbreviation well_scraped r :=
  (strip (Scraper.description r) = Scraper.description r
   ∧ Nat.le 15 (length (Scraper.description r))
   ∧ Scraper.is_noise U (Scraper.description r) = false
   ∧ Crawl.clean_text (Scraper.description r) = Scraper.description r
   ∧ Scraper.item_name r = [] ∧ Scraper.price r = []).

Lemma not_noise_long text :
  Scraper.is_noise U text = false → (15 ≤ length (strip text))%nat.
Proof.
  unfold Scraper.is_noise.
  destruct (Nat.ltb_spec (length (strip text)) 15); [done | lia].
Qed.

Lemma kept_text_well_scraped text source_page category :
  truthy (Crawl.clean_text text)
  && negb (Scraper.is_noise U (Crawl.clean_text text)) = true →
  well_scraped (Crawl.row_with source_page category (Crawl.clean_text text)).
Proof.
  intros [_ Hnoise%negb_true_iff]%andb_true_iff. simpl.
  split; [apply clean_text_stripped|].
  split.
  - rewrite <- (clean_text_stripped text) at 1. by apply not_noise_long.
  - split; [done|]. split; [|done].
    apply clean_text_fixed;
      [apply clean_text_typewriter | apply clean_text_stripped
      | apply clean_text_collapsed].
Qed.

Lemma foldl_rows_Forall {E} (P : Scraper.row → Prop)
    (f : list Scraper.row → E → list Scraper.row) (elems : list E)
    (acc : list Scraper.row) :
  (∀ rows e, e ∈ elems → Forall P rows → Forall P (f rows e)) →
  Forall P acc → Forall P (foldl f acc elems).
Proof.
  revert acc. induction elems as [|e elems IH]; intros acc Hstep Hacc;
    simpl; [done|].
  apply IH.
  - intros rows e' He'. apply Hstep. by right.
  - apply Hstep; [by left | done].
Qed.

Lemma scrape_home_well page :
  Forall (λ r, well_scraped r) (Crawl.scrape_home U page).
Proof.
  unfold Crawl.scrape_home. destruct page as [pg|]; [|constructor].
  apply foldl_rows_Forall; [|constructor]. intros rows e _ Hrows.
  destruct (_ && _) eqn:Hkeep; [|done].
  apply Forall_app. split; [done|]. repeat constructor;
    by apply (kept_text_well_scraped _ _ _ Hkeep).
Qed.

Lemma scrape_menu_page_well page (page_name : pystr) :
  Forall (λ r, well_scraped r)
    (Crawl.scrape_menu_page U unicode_capitalize page page_name).
Proof.
  unfold Crawl.scrape_menu_page. destruct page as [pg|]; [|constructor].
  apply foldl_rows_Forall; [|constructor]. intros rows e _ Hrows.
  destruct (Crawl.find_parent e _); [done|].
  destruct (existsb _ _); [done|].
  destruct (_ && _) eqn:Hkeep; [|done].
  apply Forall_app. split; [done|]. repeat constructor;
    by apply (kept_text_well_scraped _ _ _ Hkeep).
Qed.

Lemma scrape_contact_well page :
  Forall (λ r, well_scraped r) (Crawl.scrape_contact U page).
Proof.
  unfold Crawl.scrape_contact. destruct page as [pg|]; [|constructor].
  apply foldl_rows_Forall; [|constructor]. intros rows e _ Hrows.
  destruct (Crawl.find_parent e _); [done|].
  destruct (_ && _) eqn:Hkeep; [|done].
  apply Forall_app. split; [done|]. repeat constructor;
    by apply (kept_text_well_scraped _ _ _ Hkeep).
Qed.

(** Every row that one of the three scraping functions returns has a
    description that is cleaned (cleaning it again changes nothing, and it
    has no whitespace at its ends), has at least 15 characters and is not
    noise; its item name and price are empty. *)
Theorem scraped_rows_well_formed page (page_name : pystr) r :
  r ∈ Crawl.scrape_home U page
  ∨ r ∈ Crawl.scrape_menu_page U unicode_capitalize page page_name
  ∨ r ∈ Crawl.scrape_contact U page →
  strip (Scraper.description r) = Scraper.description r
  ∧ (15 ≤ length (Scraper.description r))%nat
  ∧ Scraper.is_noise U (Scraper.description r) = false
  ∧ Crawl.clean_text (Scraper.description r) = Scraper.description r
  ∧ Scraper.item_name r = [] ∧ Scraper.price r = [].
Proof.
  pose proof (scrape_home_well page) as Hhome.
  pose proof (scrape_menu_page_well page page_name) as Hmenu.
  pose proof (scrape_contact_well page) as Hcontact.
  rewrite Forall_forall in Hhome, Hmenu, Hcontact.
  intros [H | [H | H]];
    [by apply Hhome | by apply Hmenu | by apply Hcontact].
Qed.

(** The length test of the duplicate removal never rejects a scraped row
    with an ASCII description: its key is the lowercased description, of at
    least 15 characters, so such a row is dropped only for an earlier row
    with the same key. *)
Theorem scraped_rows_pass_length_guard page (page_name : pystr) r :
  r ∈ Crawl.scrape_home U page
  ∨ r ∈ Crawl.scrape_menu_page U unicode_capitalize page page_name
  ∨ r ∈ Crawl.scrape_contact U page →
  forallb is_ascii (Scraper.description r) = true →
  Scraper.desc_key U r = ascii_lower <$> Scraper.description r
  ∧ (5 < length (Scraper.desc_key U r))%nat.
Proof.
  intros Hr Hascii.
  assert (strip (Scraper.description r) = Scraper.description r
          ∧ Nat.le 15 (length (Scraper.description r))) as [Hstrip Hlen].
  { pose proof (scrape_home_well page) as Hhome.
    pose proof (scrape_menu_page_well page page_name) as Hmenu.
    pose proof (scrape_contact_well page) as Hcontact.
    rewrite Forall_forall in Hhome, Hmenu, Hcontact.
    destruct Hr as [H | [H | H]];
      [destruct (Hhome r H) as (? & ? & _)
      | destruct (Hmenu r H) as (? & ? & _)
      | destruct (Hcontact r H) as (? & ? & _)]; done. }
  unfold Scraper.desc_key, str_lower. rewrite Hstrip, Hascii.
  split; [done|]. rewrite length_fmap. unfold Nat.le in Hlen. lia.
Qed.

Local Abbreviation menu_step page_name :=
  (λ (rows : list Scraper.row) elem,
     if Crawl.find_parent elem nav_names
     then rows
     else
       let parent_classes := str_join (py " ") (Crawl.class_attr elem) in
       if existsb (λ skip, str_contains skip (str_lower U parent_classes))
            skip_marks
       then rows
       else
         let text := Crawl.clean_text (Crawl.get_text elem) in
         if truthy text && negb (Scraper.is_noise U text)
         then rows ++ [Crawl.row_with page_name
                         (Crawl.str_capitalize unicode_capitalize page_name)
                         text]
         else rows).

Local Abbreviation menu_origin page_name elem r :=
  (Crawl.find_parent elem nav_names = false
   ∧ Forall (λ mark,
               str_contains mark
                 (str_lower U (str_join (py " ") (Crawl.class_attr elem)))
               = false) skip_marks
   ∧ r = Crawl.row_with page_name
           (Crawl.str_capitalize unicode_capitalize page_name)
           (Crawl.clean_text (Crawl.get_text elem))).

Lemma menu_fold_origin (page_name : pystr) (elems : list Crawl.tag)
    (acc : list Scraper.row) r :
  r ∈ foldl (menu_step page_name) acc elems →
  r ∈ acc ∨ ∃ elem, elem ∈ elems ∧ menu_origin page_name elem r.
Proof.
  revert acc. induction elems as [|e elems IH]; intros acc Hr;
    [by left|].
  change (r ∈ foldl (menu_step page_name) (menu_step page_name acc e) elems)
    in Hr.
  apply IH in Hr as [Hacc | (elem & He & H)].
  - cbv beta zeta in Hacc.
    destruct (Crawl.find_parent e nav_names) eqn:Hnav; [by left|].
    destruct (existsb _ skip_marks) eqn:Hskip; [by left|].
    destruct (_ && _); [|by left].
    apply elem_of_app in Hacc as [Hacc | ->%list_elem_of_singleton];
      [by left|].
    right. exists e. split; [left|]. split; [done|]. split; [|done].
    cbn [existsb] in Hskip.
    repeat apply orb_false_iff in Hskip as [? Hskip].
    by repeat constructor.
  - right. exists elem. split; [by right | exact H].
Qed.

(** A row of a menu page comes from a [p] or [li] element that lies
    outside [nav], [footer] and [header] and whose class attribute,
    lowercased, contains none of "nav", "footer", "menu-item" and "widget";
    it carries the page name, and the capitalised page name as category. *)
Theorem menu_rows_origin page (page_name : pystr) r :
  r ∈ Crawl.scrape_menu_page U unicode_capitalize page page_name →
  ∃ pg elem,
    page = Some pg
    ∧ elem ∈ Crawl.find_all pg [py "p"; py "li"]
    ∧ Crawl.find_parent elem nav_names = false
    ∧ Forall (λ mark,
                str_contains mark
                  (str_lower U (str_join (py " ") (Crawl.class_attr elem)))
                = false) skip_marks
    ∧ r = Crawl.row_with page_name
            (Crawl.str_capitalize unicode_capitalize page_name)
            (Crawl.clean_text (Crawl.get_text elem)).
Proof.
  unfold Crawl.scrape_menu_page. destruct page as [pg|];
    [|by intros ?%elem_of_nil].
  intros [?%elem_of_nil | (elem & He & H)]%menu_fold_origin; [done|].
  by exists pg, elem.
Qed.

End ScrapingFacts.

(** ** The crawl *)

Section CrawlFacts.
Context (U : unicode_tables) (unicode_capitalize : pystr → pystr).
Context (respond : pystr → pystr + Crawl.soup).
Implicit Types (s : Crawl.crawl_state) (url : pystr).

(** The page that a request returns, if it does not fail. *)
Local Abbreviation fetched url :=
  (match respond url with inr page => Some page | inl _ => None end).

Local Abbreviation error_line url :=
  (match respond url%list with
   | inr _ => []
   | inl e => [Crawl.Stdout (py "Error fetching " ++ url ++ py ": " ++ e)]
   end).

(** The requests and the pauses among the events. *)
Local Abbreviation on_the_wire :=
  (λ e, match e with Crawl.Stdout _ => None | _ => Some e end).

Local Abbreviation page_body :=
  (λ '(page_name, path),
     let url := Crawl.BASE_URL ++ path in
     Crawl.note (Crawl.Stdout (py "  Fetching: " ++ url));;
     page ← Crawl.fetch_page respond url;
     Crawl.note (Crawl.Sleep 1);;
     if bool_decide (page_name = py "home")
     then Crawl.rows_extend (Crawl.scrape_home U page)
     else if bool_decide (page_name = py "contact")
     then Crawl.rows_extend (Crawl.scrape_contact U page)
     else Crawl.rows_extend
            (Crawl.scrape_menu_page U unicode_capitalize page page_name)).

Lemma page_body_run (page_name path : pystr) s :
  page_body (page_name, path) s =
    ({| Crawl.rows :=
          Crawl.rows s ++
          (if bool_decide (page_name = py "home")
           then Crawl.scrape_home U (fetched (Crawl.BASE_URL ++ path))
           else if bool_decide (page_name = py "contact")
           then Crawl.scrape_contact U (fetched (Crawl.BASE_URL ++ path))
           else Crawl.scrape_menu_page U unicode_capitalize
                  (fetched (Crawl.BASE_URL ++ path)) page_name);
        Crawl.crawl_log :=
          Crawl.crawl_log s
          ++ [Crawl.Stdout (py "  Fetching: " ++ Crawl.BASE_URL ++ path);
              Crawl.HttpGet (Crawl.BASE_URL ++ path)]
          ++ error_line (Crawl.BASE_URL ++ path)
          ++ [Crawl.Sleep 1] |},
     inr ()).
Proof.
  cbv beta iota zeta.
  unfold Crawl.fetch_page, mbind, M_bind, bind, Crawl.note,
    Crawl.rows_extend, modify, ret.
  cbn [Crawl.rows Crawl.crawl_log].
  destruct (respond (Crawl.BASE_URL ++ path)) as [e|pg];
    cbn [Crawl.rows Crawl.crawl_log];
    repeat case_bool_decide; cbn [Crawl.rows Crawl.crawl_log];
    by rewrite <- !app_assoc.
Qed.

Lemma on_the_wire_error url : omap on_the_wire (error_line url) = [].
Proof. by destruct (respond url). Qed.

Lemma for_each_run {S B} (xs : list B) (body : B → M S ())
    (step : S → B → S) :
  (∀ x st, body x st = (step st x, inr ())) →
  ∀ st, for_each xs body st = (foldl step st xs, inr ()).
Proof.
  intros Hbody. induction xs as [|x xs IH]; intros st; [done|].
  cbn [for_each foldl]. unfold bind. by rewrite Hbody, IH.
Qed.

Lemma run_bind {S B C} (m : M S B) (k : B → M S C) (st : S) :
  (m ≫= k) st =
    match m st with
    | (st', inr a) => k a st'
    | (st', inl e) => (st', inl e)
    end.
Proof. done. Qed.

Local Abbreviation page_step :=
  (λ s '(page_name, path),
     {| Crawl.rows :=
          Crawl.rows s ++
          (if bool_decide (page_name = py "home")
           then Crawl.scrape_home U (fetched (Crawl.BASE_URL ++ path))
           else if bool_decide (page_name = py "contact")
           then Crawl.scrape_contact U (fetched (Crawl.BASE_URL ++ path))
           else Crawl.scrape_menu_page U unicode_capitalize
                  (fetched (Crawl.BASE_URL ++ path)) page_name);
        Crawl.crawl_log :=
          Crawl.crawl_log s
          ++ [Crawl.Stdout (py "  Fetching: " ++ Crawl.BASE_URL ++ path);
              Crawl.HttpGet (Crawl.BASE_URL ++ path)]
          ++ error_line (Crawl.BASE_URL ++ path)
          ++ [Crawl.Sleep 1] |}).

Lemma crawl_loop_run s :
  for_each Crawl.PAGES page_body s = (foldl page_step s Crawl.PAGES, inr ()).
Proof.
  apply for_each_run. intros [page_name path] st. apply page_body_run.
Qed.

(** The crawl never raises.  It requests the seven pages in the order of
    [PAGES], pausing one second after each request, whether or not the
    request failed; the rows it collects are those of the pages that were
    fetched, page after page, and a page whose request failed adds none. *)
Theorem scrape_site_run s :
  let home := Crawl.scrape_home U (fetched (Crawl.BASE_URL ++ py "/")) in
  let menu name path :=
    Crawl.scrape_menu_page U unicode_capitalize
      (fetched (Crawl.BASE_URL ++ path)) name in
  let contact :=
    Crawl.scrape_contact U (fetched (Crawl.BASE_URL ++ py "/contact-us/")) in
  ∃ log,
    Crawl.scrape_site U unicode_capitalize respond s =
      ({| Crawl.rows :=
            home ++ menu (py "food") (py "/food/")
            ++ menu (py "drinks") (py "/drinks/")
            ++ menu (py "wines") (py "/wines/")
            ++ menu (py "cake") (py "/cake/")
            ++ menu (py "events") (py "/category/events/")
            ++ contact;
          Crawl.crawl_log := Crawl.crawl_log s ++ log |},
       inr ())
    ∧ omap on_the_wire log =
        Crawl.PAGES ≫= (λ '(_, path),
                          [Crawl.HttpGet (Crawl.BASE_URL ++ path);
                           Crawl.Sleep 1])
    ∧ ((∀ url, fetched url = None) →
       home ++ menu (py "food") (py "/food/")
       ++ menu (py "drinks") (py "/drinks/")
       ++ menu (py "wines") (py "/wines/")
       ++ menu (py "cake") (py "/cake/")
       ++ menu (py "events") (py "/category/events/")
       ++ contact = []).
Proof.
  intros home menu contact.
  unfold Crawl.scrape_site.
  rewrite run_bind. unfold modify at 1. cbv beta iota.
  rewrite run_bind. unfold Crawl.note at 1, modify at 1. cbv beta iota.
  rewrite run_bind, crawl_loop_run. cbv beta iota.
  rewrite run_bind. unfold get at 1. cbv beta iota.
  unfold Crawl.note, modify, Crawl.PAGES.
  cbn [foldl Crawl.rows Crawl.crawl_log].
  repeat (case_bool_decide as Hname;
          [by (exfalso; revert Hname; vm_compute; discriminate)|]).
  rewrite !bool_decide_eq_true_2 by reflexivity.
  eexists. split; [|split].
  - rewrite <- !app_assoc. simpl app at 1. reflexivity.
  - rewrite !omap_app, !on_the_wire_error. reflexivity.
  - intros Hnone. subst home menu contact. cbv beta. by rewrite !Hnone.
Qed.

End CrawlFacts.

Lemma scraped_rows_well_formed_witness :
  let d := py "Grilled salmon fillet with creamy Tuscan sauce" in
  strip d = d ∧ (15 ≤ length d)%nat
  ∧ Scraper.is_noise Sample.ascii_tables d = false
  ∧ Crawl.clean_text d = d.
Proof.
  intros d.
  destruct (scraped_rows_well_formed Sample.ascii_tables (λ s, s)
              (Some SampleSite.food_page) (py "food")
              (Crawl.row_with (py "food") (py "Food") d))
    as (H1 & H2 & H3 & H4 & _); [|done].
  right. left. vm_compute. apply list_elem_of_here.
Defined.

Lemma menu_rows_origin_witness :
  ∃ pg elem,
    Some SampleSite.food_page = Some pg
    ∧ elem ∈ Crawl.find_all pg [py "p"; py "li"]
    ∧ Crawl.find_parent elem [py "nav"; py "footer"; py "header"] = false
    ∧ Forall (λ mark,
                str_contains mark
                  (str_lower Sample.ascii_tables
                     (str_join (py " ") (Crawl.class_attr elem)))
                = false)
        [py "nav"; py "footer"; py "menu-item"; py "widget"]
    ∧ Crawl.row_with (py "food") (py "Food")
        (py "Grilled salmon fillet with creamy Tuscan sauce")
      = Crawl.row_with (py "food")
          (Crawl.str_capitalize (λ s, s) (py "food"))
          (Crawl.clean_text (Crawl.get_text elem)).
Proof.
  apply (menu_rows_origin Sample.ascii_tables (λ s, s)
           (Some SampleSite.food_page) (py "food")).
  vm_compute. apply list_elem_of_here.
Defined.

Lemma scrape_site_run_witness :
  Crawl.rows
    (Crawl.scrape_site Sample.ascii_tables (λ s, s) SampleSite.respond
       SampleSite.fresh_crawl).1
  = [Crawl.row_with (py "home") (py "description")
       (py "Welcome to The Hickory, the woody wine and dine");
     Crawl.row_with (py "food") (py "Food")
       (py "Grilled salmon fillet with creamy Tuscan sauce")].
Proof.
  destruct (scrape_site_run Sample.ascii_tables (λ s, s) SampleSite.respond
              SampleSite.fresh_crawl) as (log & Hrun & _).
  rewrite Hrun. vm_compute. reflexivity.
Defined.

(** The events of that crawl: the two pages that answer and the five
    requests that fail. *)
Example scrape_site_log :
  Crawl.crawl_log
    (Crawl.scrape_site Sample.ascii_tables (λ s, s) SampleSite.respond
       SampleSite.fresh_crawl).1
  = [Crawl.Stdout (py "Scraping The Hickory Kampala website...");
     Crawl.Stdout (py "  Fetching: https://thehickorykampala.com/");
     Crawl.HttpGet (py "https://thehickorykampala.com/");
     Crawl.Sleep 1;
     Crawl.Stdout (py "  Fetching: https://thehickorykampala.com/food/");
     Crawl.HttpGet (py "https://thehickorykampala.com/food/");
     Crawl.Sleep 1;
     Crawl.Stdout (py "  Fetching: https://thehickorykampala.com/drinks/");
     Crawl.HttpGet (py "https://thehickorykampala.com/drinks/");
     Crawl.Stdout (py "Error fetching https://thehickorykampala.com/drinks/: 404 Client Error");
     Crawl.Sleep 1;
     Crawl.Stdout (py "  Fetching: https://thehickorykampala.com/wines/");
     Crawl.HttpGet (py "https://thehickorykampala.com/wines/");
     Crawl.Stdout (py "Error fetching https://thehickorykampala.com/wines/: 404 Client Error");
     Crawl.Sleep 1;
     Crawl.Stdout (py "  Fetching: https://thehickorykampala.com/cake/");
     Crawl.HttpGet (py "https://thehickorykampala.com/cake/");
     Crawl.Stdout (py "Error fetching https://thehickorykampala.com/cake/: 404 Client Error");
     Crawl.Sleep 1;
     Crawl.Stdout (py "  Fetching: https://thehickorykampala.com/category/events/");
     Crawl.HttpGet (py "https://thehickorykampala.com/category/events/");
     Crawl.Stdout (py "Error fetching https://thehickorykampala.com/category/events/: 404 Client Error");
     Crawl.Sleep 1;
     Crawl.Stdout (py "  Fetching: https://thehickorykampala.com/contact-us/");
     Crawl.HttpGet (py "https://thehickorykampala.com/contact-us/");
     Crawl.Stdout (py "Error fetching https://thehickorykampala.com/contact-us/: 404 Client Error");
     Crawl.Sleep 1;
     Crawl.Stdout (py "  Scraped 2 raw entries from website.")].
Proof. vm_compute. reflexivity. Qed.

Lemma scraped_rows_pass_length_guard_witness :
  let r := Crawl.row_with (py "food") (py "Food")
             (py "Grilled salmon fillet with creamy Tuscan sauce") in
  Scraper.desc_key Sample.ascii_tables r
  = ascii_lower <$> Scraper.description r
  ∧ (5 < length (Scraper.desc_key Sample.ascii_tables r))%nat.
Proof.
  intros r.
  apply (scraped_rows_pass_length_guard Sample.ascii_tables (λ s, s)
           (Some SampleSite.food_page) (py "food") r).
  - right. left. vm_compute. apply list_elem_of_here.
  - vm_compute. reflexivity.
Defined.

(** ** Category descriptions *)

(** A label outside the ten keys of [CATEGORY_INFO] is shown as it is. *)
Theorem category_fallback (label : pystr) :
  label ∉ [py "food"; py "drinks"; py "wines"; py "cake"; py "reviews";
           py "services"; py "about"; py "home"; py "contact"; py "events"] →
  App.dict_get App.CATEGORY_INFO label label = label.
Proof.
  intros Hnew. unfold App.dict_get, App.CATEGORY_INFO.
  rewrite (not_elem_of_list_to_map_1 _ label); [done|]. exact Hnew.
Qed.

Lemma category_fallback_witness :
  App.dict_get App.CATEGORY_INFO (py "desserts") (py "desserts")
  = py "desserts".
Proof.
  apply category_fallback. intros H.
  repeat (apply elem_of_cons in H as [H | H];
          [revert H; vm_compute; discriminate|]).
  by apply elem_of_nil in H.
Defined.
